(** * bloom-filter: the BIP37 Bloom filter of [lib/filter.js]

    A shallow embedding of the JavaScript sources of the repository
    ([lib/filter.js], with the helpers of [test/index.js]) and the
    properties of its specification, settled against that embedding.

    Conventions of the embedding.
    - A JavaScript number that holds an integer is a [Z]; the values
      [undefined] and [NaN] are explicit ([jsval]).  The 32-bit operators
      [&], [|], [<<], [>>] go through [ToInt32], as the language defines
      them.
    - A [Buffer] is a list of bytes.  A JavaScript array ([vData]) is an
      object: a finite map from property keys to values together with its
      [length], so that a write one past the end extends the array and a
      write at a negative key leaves the length alone.
    - A [throw] is the [Throw] result; a method that mutates [this]
      returns the new object.
    - The sizing arithmetic of [Filter.create] (the only floating-point
      code) is carried out over the reals extended with the two infinities
      and NaN: rounding of the doubles is not modelled. *)

From Stdlib Require Import ZArith List String Ascii Bool Lia Reals Lra.
From Stdlib.Strings Require Import Byte.
From stdpp Require Import base option list gmap pretty.

Open Scope Z_scope.

(** ** JavaScript values and 32-bit operators *)

Inductive jsval : Type :=
| Undefined
| NaN
| Num (z : Z).

(** [ToBoolean] on the values of the model: [undefined], [NaN] and [0]
    are falsy. *)
Definition truthy (v : jsval) : bool :=
  match v with
  | Num z => negb (z =? 0)
  | _ => false
  end.

(** [a || b] on values. *)
Definition js_or_else (a b : jsval) : jsval :=
  if truthy a then a else b.

Definition wrap32 (z : Z) : Z := (z + 2 ^ 31) mod 2 ^ 32 - 2 ^ 31.

Definition ToInt32 (v : jsval) : Z :=
  match v with
  | Num z => wrap32 z
  | _ => 0
  end.

Definition ToUint32 (v : jsval) : Z :=
  match v with
  | Num z => z mod 2 ^ 32
  | _ => 0
  end.

(** The result of a bitwise operator is a signed 32-bit integer. *)
Definition js_and (a b : jsval) : Z := wrap32 (Z.land (ToInt32 a) (ToInt32 b)).
Definition js_or (a b : jsval) : Z := wrap32 (Z.lor (ToInt32 a) (ToInt32 b)).
Definition js_shl (a b : jsval) : Z :=
  wrap32 (Z.shiftl (ToInt32 a) (ToUint32 b mod 32)).
Definition js_sar (a b : jsval) : Z :=
  Z.shiftr (ToInt32 a) (ToUint32 b mod 32).

(** A double holds an integer of magnitude below [2^53] exactly; a larger
    one is rounded to 53 significant bits, ties to even.  [*] and [+] on
    integer-valued doubles return the rounded exact result. *)
Definition round53 (z : Z) : Z :=
  let a := Z.abs z in
  if a <? 2 ^ 53 then z
  else
    let e := Z.log2 a - 52 in
    let q := Z.shiftr a e in
    let r := a - Z.shiftl q e in
    let half := Z.shiftl 1 (e - 1) in
    let q' := if r <? half then q
              else if half <? r then q + 1
              else if Z.even q then q else q + 1 in
    Z.sgn z * Z.shiftl q' e.

Definition js_mul (a b : Z) : Z := round53 (a * b).
Definition js_add (a b : Z) : Z := round53 (a + b).

(** [a % b] for integers: the remainder has the sign of the dividend,
    and [a % 0] is [NaN]. *)
Definition js_rem (a b : Z) : jsval :=
  if b =? 0 then NaN else Num (Z.rem a b).

(** ** Buffers *)

Abbreviation Buffer := (list byte).

Definition byte_to_Z (b : byte) : Z := Z.of_N (Byte.to_N b).

Definition byte_of_Z (z : Z) : byte :=
  match Byte.of_N (Z.to_N (z mod 256)) with
  | Some b => b
  | None => x00
  end.

(** [test/index.js], [ParseHex]: two hexadecimal digits per byte. *)
Definition hex_digit (c : ascii) : option Z :=
  let n := Z.of_nat (nat_of_ascii c) in
  if (48 <=? n) && (n <=? 57) then Some (n - 48)
  else if (97 <=? n) && (n <=? 102) then Some (n - 87)
  else if (65 <=? n) && (n <=? 70) then Some (n - 55)
  else None.

Fixpoint ParseHex (str : string) : Buffer :=
  match str with
  | String c1 (String c2 rest) =>
      (match hex_digit c1, hex_digit c2 with
       | Some h, Some l => byte_of_Z (16 * h + l)
       | Some h, None => byte_of_Z h
       | None, _ => x00
       end) :: ParseHex rest
  | _ => []
  end.

(** ** MurmurHash3 *)

Module Murmur.

Definition u32 (z : Z) : Z := z mod 2 ^ 32.

Definition rotl32 (x r : Z) : Z :=
  u32 (Z.lor (Z.shiftl x r) (Z.shiftr x (32 - r))).

Definition c1 : Z := 0xcc9e2d51.
Definition c2 : Z := 0x1b873593.

Definition scramble (k : Z) : Z :=
  u32 (rotl32 (u32 (k * c1)) 15 * c2).

Definition mix (hash k : Z) : Z :=
  u32 (rotl32 (Z.lxor hash (scramble k)) 13 * 5 + 0xe6546b64).

(** A little-endian word from at most four bytes. *)
Fixpoint le_word (bs : list byte) : Z :=
  match bs with
  | [] => 0
  | b :: rest => byte_to_Z b + 256 * le_word rest
  end.

Fixpoint body (hash : Z) (data : list byte) : Z :=
  match data with
  | b0 :: b1 :: b2 :: b3 :: rest => body (mix hash (le_word [b0; b1; b2; b3])) rest
  | [] => hash
  | tail => Z.lxor hash (scramble (le_word tail))
  end.

(** The avalanche, with the amount of its last shift as a parameter. *)
Definition fmix (last : Z) (h : Z) : Z :=
  let h := Z.lxor h (Z.shiftr h 16) in
  let h := u32 (h * 0x85ebca6b) in
  let h := Z.lxor h (Z.shiftr h 13) in
  let h := u32 (h * 0xc2b2ae35) in
  Z.lxor h (Z.shiftr h last).

Definition hash32 (last : Z) (seed : Z) (data : list byte) : Z :=
  fmix last (Z.lxor (body (u32 seed) data) (u32 (Z.of_nat (length data)))).

End Murmur.

(** Modelled from the spec: [lib/murmurhash3.js] is not among the sources.
    The specification (section 4.1) gives the 32-bit MurmurHash3: the
    input in 4-byte little-endian chunks, each mixed with [c1], a rotation
    by 15, [c2], then xor, a rotation by 13 and [*5 + 0xe6546b64]; the
    1 to 3 tail bytes mixed with [c1]/[c2] and the rotation by 15 only;
    then the length is xored in and the avalanche applied.  All arithmetic
    is modulo [2^32], the seed included.  The last shift of the avalanche
    is by 16: the reference vectors of [test/index.js], which the
    specification requires to be reproduced exactly, hold for 16 and not
    for the 15 its text writes ([MurmurHash3_vectors],
    [MurmurHash3_vectors_last_shift]). *)
Definition MurmurHash3 (seed : Z) (data : Buffer) : Z :=
  Murmur.hash32 16 seed data.

(** The reference vectors of [test/index.js]. *)
Definition murmur_vectors : list (Z * Z * string) :=
  [ (0x00000000, 0x00000000, EmptyString);
    (0x6a396f08, 0xFBA4C795, EmptyString);
    (0x81f16f39, 0xffffffff, EmptyString);
    (0x514e28b7, 0x00000000, "00");
    (0xea3f0b17, 0xFBA4C795, "00");
    (0xfd6cf10d, 0x00000000, "ff");
    (0x16c6b7ab, 0x00000000, "0011");
    (0x8eb51c3d, 0x00000000, "001122");
    (0xb4471bf8, 0x00000000, "00112233");
    (0xe2301fa8, 0x00000000, "0011223344");
    (0xfc2e4a15, 0x00000000, "001122334455");
    (0xb074502c, 0x00000000, "00112233445566");
    (0x8034d2a0, 0x00000000, "0011223344556677");
    (0xb4698def, 0x00000000, "001122334455667788") ]%string.

(** ** Exceptions *)

Inductive error : Type :=
| TypeError_vData                 (* Data object should include filter data vData *)
| TypeError_nHashFuncs            (* Data object should include number of hash functions nHashFuncs *)
| TypeError_unrecognized_argument (* Unrecognized argument *)
| TypeError_not_a_Transaction     (* First argument must be an instance of Transaction *)
| TypeError_undefined_property    (* Cannot read property of undefined, or of null *)
| TypeError_value                 (* a Buffer write of a value that is no number *)
| RangeError_value                (* a Buffer write of a value out of bounds *)
| RangeError_offset.              (* a Buffer read beyond the buffer length *)

Inductive result (A : Type) : Type :=
| Ok (a : A)
| Throw (e : error).

Arguments Ok {A} a.
Arguments Throw {A} e.

#[global] Instance result_ret : MRet result := fun A a => Ok a.
#[global] Instance result_bind : MBind result := fun A B k r =>
  match r with
  | Ok a => k a
  | Throw e => Throw e
  end.

(** ** Arrays *)

(** A JavaScript array: its properties and its [length].  Reading an
    absent property gives [undefined]; writing at an array index at or
    beyond [length] extends the array; any other key (a negative one) is
    an ordinary property and leaves [length] alone. *)
Record jsarray : Type := mkArray {
  items : gmap Z Z;
  alen : Z
}.

Definition empty_array : jsarray := {| items := ∅; alen := 0 |}.

Definition aget (a : jsarray) (k : Z) : jsval :=
  match items a !! k with
  | Some v => Num v
  | None => Undefined
  end.

Definition aset (a : jsarray) (k v : Z) : jsarray :=
  {| items := <[k := v]> (items a);
     alen := if (0 <=? k) && (k <? 2 ^ 32 - 1) && (alen a <=? k)
             then k + 1 else alen a |}.

Definition push (a : jsarray) (v : Z) : jsarray := aset a (alen a) v.

Definition array_of_list (l : list Z) : jsarray := fold_left push l empty_array.

(** ** bitcore's BufferWriter and BufferReader

    External collaborators ([bitcore/lib/encoding]): thin wrappers over
    the Buffer methods of the same names, which check the range of the
    value written and of the offset read. *)

Abbreviation BufferWriter := (list byte).

Definition writeUInt8 (n : jsval) (bw : BufferWriter) : result BufferWriter :=
  match n with
  | Num z =>
      if (0 <=? z) && (z <=? 0xff) then Ok (bw ++ [byte_of_Z z])
      else Throw RangeError_value
  | _ => Throw TypeError_value
  end.

Definition uint32le (z : Z) : list byte :=
  [byte_of_Z z; byte_of_Z (Z.shiftr z 8);
   byte_of_Z (Z.shiftr z 16); byte_of_Z (Z.shiftr z 24)].

Definition writeUInt32LE (n : jsval) (bw : BufferWriter) : result BufferWriter :=
  match n with
  | Num z =>
      if (0 <=? z) && (z <=? 0xffffffff) then Ok (bw ++ uint32le z)
      else Throw RangeError_value
  | _ => Throw TypeError_value
  end.

Record BufferReader : Type := mkReader {
  buf : Buffer;
  pos : nat
}.

Definition readUInt8 (br : BufferReader) : result (Z * BufferReader) :=
  match buf br !! pos br with
  | Some b => Ok (byte_to_Z b, {| buf := buf br; pos := S (pos br) |})
  | None => Throw RangeError_offset
  end.

Definition uint32le_value (b0 b1 b2 b3 : byte) : Z :=
  byte_to_Z b0 + 2 ^ 8 * byte_to_Z b1 + 2 ^ 16 * byte_to_Z b2
  + 2 ^ 24 * byte_to_Z b3.

Definition readUInt32LE (br : BufferReader) : result (Z * BufferReader) :=
  match take 4 (drop (pos br) (buf br)) with
  | [b0; b1; b2; b3] =>
      Ok (uint32le_value b0 b1 b2 b3,
          {| buf := buf br; pos := (pos br + 4)%nat |})
  | _ => Throw RangeError_offset
  end.

(** [new BufferReader(b).readReverse()]: the bytes of [b] in reverse
    order. *)
Definition readReverse (b : Buffer) : Buffer := rev b.

(** ** The Filter object *)

Definition BLOOM_UPDATE_NONE : Z := 0.
Definition BLOOM_UPDATE_ALL : Z := 1.
Definition BLOOM_UPDATE_P2PUBKEY_ONLY : Z := 2.
Definition BLOOM_UPDATE_MASK : Z := 3.
Definition MAX_BLOOM_FILTER_SIZE : Z := 36000. (* bytes *)
Definition MAX_HASH_FUNCS : Z := 50.
Definition MIN_HASH_FUNCS : Z := 1.
Definition LN2SQUARED : R := (ln 2 ^ 2)%R.
Definition LN2 : R := ln 2.

Record Filter : Type := mkFilter {
  vData : jsarray;
  nHashFuncs : Z;
  nTweak : Z;
  nFlags : Z
}.

(** The data object the constructor receives: [arg.vData] is an array or
    absent, the three numbers are integers, [NaN] or absent. *)
Record FilterArg : Type := mkArg {
  arg_vData : option jsarray;
  arg_nHashFuncs : jsval;
  arg_nTweak : jsval;
  arg_nFlags : jsval
}.

(** The integer held by a number value (0 for the others, which the
    constructor never stores). *)
Definition number (v : jsval) : Z :=
  match v with
  | Num z => z
  | _ => 0
  end.

(** [function Filter(arg)]; [None] is an argument that is no object.  An
    array is truthy, the empty one too. *)
Definition new_Filter (arg : option FilterArg) : result Filter :=
  match arg with
  | Some arg =>
      match arg_vData arg with
      | None => Throw TypeError_vData
      | Some v =>
          if negb (truthy (arg_nHashFuncs arg)) then Throw TypeError_nHashFuncs
          else Ok {| vData := v;
                     nHashFuncs := number (arg_nHashFuncs arg);
                     nTweak := number (js_or_else (arg_nTweak arg) (Num 0));
                     nFlags := number (js_or_else (arg_nFlags arg)
                                                  (Num BLOOM_UPDATE_NONE)) |}
      end
  | None => Throw TypeError_unrecognized_argument
  end.

(** [Filter._transformBufferReader]: the loop pushes [length] bytes. *)
Fixpoint read_vData (n : nat) (a : jsarray) (br : BufferReader)
  : result (jsarray * BufferReader) :=
  match n with
  | O => Ok (a, br)
  | S n' =>
      '(b, br) ← readUInt8 br;
      read_vData n' (push a b) br
  end.

Definition _transformBufferReader (br : BufferReader) : result FilterArg :=
  '(length, br) ← readUInt8 br;
  '(v, br) ← read_vData (Z.to_nat length) empty_array br;
  '(h, br) ← readUInt32LE br;
  '(t, br) ← readUInt32LE br;
  '(fl, br) ← readUInt8 br;
  Ok {| arg_vData := Some v; arg_nHashFuncs := Num h;
        arg_nTweak := Num t; arg_nFlags := Num fl |}.

Definition fromBuffer (buffer : Buffer) : result Filter :=
  info ← _transformBufferReader {| buf := buffer; pos := 0 |};
  new_Filter (Some info).

(** [Filter.prototype.toBufferWriter]: the loop writes [vData[i]] for
    [i] from 0 to [vData.length - 1]. *)
Fixpoint write_vData (v : jsarray) (indices : list Z) (bw : BufferWriter)
  : result BufferWriter :=
  match indices with
  | [] => Ok bw
  | i :: rest =>
      bw ← writeUInt8 (aget v i) bw;
      write_vData v rest bw
  end.

Definition toBufferWriter (this : Filter) (bw : option BufferWriter)
  : result BufferWriter :=
  let bw := match bw with Some bw => bw | None => [] end in
  bw ← writeUInt8 (Num (alen (vData this))) bw;
  bw ← write_vData (vData this) (seqZ 0 (alen (vData this))) bw;
  bw ← writeUInt32LE (Num (nHashFuncs this)) bw;
  bw ← writeUInt32LE (Num (nTweak this)) bw;
  writeUInt8 (Num (nFlags this)) bw.

Definition toBuffer (this : Filter) : result Buffer :=
  toBufferWriter this None.

Definition fromObject (data : FilterArg) : result Filter :=
  new_Filter (Some {| arg_vData := arg_vData data;
                      arg_nHashFuncs := arg_nHashFuncs data;
                      arg_nTweak := arg_nTweak data;
                      arg_nFlags := arg_nFlags data |}).

Definition toObject (this : Filter) : FilterArg :=
  {| arg_vData := Some (vData this);
     arg_nHashFuncs := Num (nHashFuncs this);
     arg_nTweak := Num (nTweak this);
     arg_nFlags := Num (nFlags this) |}.

(** [Filter.fromJSON]: the argument is a string or an object.  A string
    that [JSUtil.isValidJSON] accepts (it parses, to an object or to
    [null]) is replaced by what [JSON.parse] makes of it; any other string
    goes to [fromObject] as it is, where its four properties are
    [undefined].  [JSON.parse] is a parameter. *)
Inductive json_arg : Type :=
| JString (s : string)
| JObject (o : FilterArg).

Inductive parsed : Type :=
| NotAnObject            (* no JSON text, or the text of a primitive *)
| ParsedNull
| ParsedObject (o : FilterArg).

Definition fromJSON (JSON_parse : string -> parsed) (data : json_arg)
  : result Filter :=
  match data with
  | JString s =>
      match JSON_parse s with
      | ParsedObject o => fromObject o
      | ParsedNull => Throw TypeError_undefined_property
      | NotAnObject =>
          fromObject {| arg_vData := None; arg_nHashFuncs := Undefined;
                        arg_nTweak := Undefined; arg_nFlags := Undefined |}
      end
  | JObject o => fromObject o
  end.





(** [JSON.stringify] on a data object: the properties in order, one
    that is [undefined] left out, [NaN] as [null]; the array as its
    elements from 0 to [length - 1], a missing element as [null]. *)
Definition dquote : string := String (ascii_of_nat 34) EmptyString.

Definition json_number (v : jsval) : string :=
  match v with
  | Num z => pretty z
  | _ => "null"
  end.

Definition json_array (a : jsarray) : string :=
  "[" +:+ String.concat "," (map (fun i => json_number (aget a i))
                                 (seqZ 0 (alen a))) +:+ "]".

Definition json_property (key : string) (value : option string) : list string :=
  match value with
  | Some text => [dquote +:+ key +:+ dquote +:+ ":" +:+ text]
  | None => []
  end.

Definition json_defined (v : jsval) : option string :=
  match v with
  | Undefined => None
  | _ => Some (json_number v)
  end.

Definition JSON_stringify (o : FilterArg) : string :=
  "{" +:+ String.concat ","
            (json_property "vData" (json_array <$> arg_vData o)
             ++ json_property "nHashFuncs" (json_defined (arg_nHashFuncs o))
             ++ json_property "nTweak" (json_defined (arg_nTweak o))
             ++ json_property "nFlags" (json_defined (arg_nFlags o)))
      +:+ "}".

(** [Filter.prototype.toJSON]: the body is one expression statement and
    no [return]; the call evaluates to [undefined] ([None]). *)
Definition toJSON (this : Filter) : option string :=
  let _ := JSON_stringify (toObject this) in
  None.

(** ** Sizing: [Filter.create] *)

(** The numbers of the sizing formula: a real, an infinity ([Inf true] is
    the negative one) or NaN.  Zero carries no sign. *)
Inductive double : Type :=
| Fin (x : R)
| Inf (negative : bool)
| DNaN.

Definition Rneg (x : R) : bool := if Rlt_dec x 0 then true else false.
Definition Rzero (x : R) : bool := if Req_dec_T x 0 then true else false.

Definition dmul (a b : double) : double :=
  match a, b with
  | DNaN, _ | _, DNaN => DNaN
  | Fin x, Fin y => Fin (x * y)
  | Fin x, Inf s | Inf s, Fin x =>
      if Rzero x then DNaN else Inf (xorb (Rneg x) s)
  | Inf s, Inf t => Inf (xorb s t)
  end.

(** A zero divisor counts as [+0]: the quotient has the sign of the
    dividend. *)
Definition ddiv (a b : double) : double :=
  match a, b with
  | DNaN, _ | _, DNaN => DNaN
  | Fin x, Fin y =>
      if Rzero y then (if Rzero x then DNaN else Inf (Rneg x))
      else Fin (x / y)
  | Fin _, Inf _ => Fin 0
  | Inf s, Fin y => Inf (xorb s (Rneg y))
  | Inf _, Inf _ => DNaN
  end.

Definition Math_log (a : double) : double :=
  match a with
  | Fin x => if Rneg x then DNaN else if Rzero x then Inf true else Fin (ln x)
  | Inf false => Inf false
  | Inf true => DNaN
  | DNaN => DNaN
  end.

(** The result of [Math.floor]: an integer, an infinity or NaN. *)
Inductive integral : Type :=
| IFin (z : Z)
| IInf (negative : bool)
| INaN.

Definition Math_floor (a : double) : integral :=
  match a with
  | Fin x => IFin (Zfloor x)
  | Inf s => IInf s
  | DNaN => INaN
  end.

(** [if (filterSize > max) filterSize = max;] followed by
    [for (i = 0; i < filterSize; i++)]: the number of iterations.  An
    infinite [filterSize] exceeds [max]; against [-Infinity] and [NaN]
    both comparisons are false. *)
Definition pushes (filterSize : integral) : nat :=
  let max := MAX_BLOOM_FILTER_SIZE * 8 in
  match filterSize with
  | IFin z => Z.to_nat (if z >? max then max else z)
  | IInf false => Z.to_nat max
  | IInf true => 0
  | INaN => 0
  end.

(** [if (n > MAX_HASH_FUNCS) n = MAX_HASH_FUNCS;] then
    [if (n < MIN_HASH_FUNCS) n = MIN_HASH_FUNCS;].  [NaN] passes both
    comparisons unchanged. *)
Definition clamp_nHashFuncs (n : integral) : jsval :=
  match n with
  | IFin z =>
      let z := if z >? MAX_HASH_FUNCS then MAX_HASH_FUNCS else z in
      Num (if z <? MIN_HASH_FUNCS then MIN_HASH_FUNCS else z)
  | IInf false => Num MAX_HASH_FUNCS
  | IInf true => Num MIN_HASH_FUNCS
  | INaN => NaN
  end.

Fixpoint push_zeros (n : nat) (a : jsarray) : jsarray :=
  match n with
  | O => a
  | S n' => push_zeros n' (push a 0)
  end.

Definition create (elements falsePositiveRate : double) (nTweak nFlags : jsval)
  : result Filter :=
  let size :=
    dmul (dmul (ddiv (Fin (-1)) (Fin LN2SQUARED)) elements)
         (Math_log falsePositiveRate) in
  let filterSize := Math_floor (ddiv size (Fin 8)) in
  let info_vData := push_zeros (pushes filterSize) empty_array in
  let nHashFuncs :=
    Math_floor (dmul (ddiv (Fin (IZR (alen info_vData * 8))) elements)
                     (Fin LN2)) in
  new_Filter (Some {| arg_vData := Some info_vData;
                      arg_nHashFuncs := clamp_nHashFuncs nHashFuncs;
                      arg_nTweak := nTweak;
                      arg_nFlags := nFlags |}).

(** ** Hashing, insertion, membership *)

Definition set_vData (this : Filter) (v : jsarray) : Filter :=
  {| vData := v; nHashFuncs := nHashFuncs this;
     nTweak := nTweak this; nFlags := nFlags this |}.

(** [Filter.prototype.hash]: [h % (this.vData.length * 8)], which is
    [NaN] on an empty array.  The seed goes through the double
    arithmetic; eight times an array length (below [2^32]) is exact. *)
Definition hash (this : Filter) (nHashNum : Z) (vDataToHash : Buffer) : jsval :=
  let h :=
    MurmurHash3
      (js_and (Num (js_add (js_mul nHashNum 0xFBA4C795) (nTweak this)))
              (Num 0xFFFFFFFF))
      vDataToHash in
  js_rem h (alen (vData this) * 8).

(** One iteration of the loop of [insert]:
    [this.vData[index >> 3] |= (1 << (7 & index))]. *)
Definition insert_step (data : Buffer) (this : Filter) (i : Z) : Filter :=
  let index := hash this i data in
  let position := js_shl (Num 1) (Num (js_and (Num 7) index)) in
  let k := js_sar index (Num 3) in
  set_vData this
    (aset (vData this) k (js_or (aget (vData this) k) (Num position))).

Definition insert (this : Filter) (data : Buffer) : Filter :=
  fold_left (insert_step data) (seqZ 0 (nHashFuncs this)) this.

Definition bit_is_set (this : Filter) (index : jsval) : bool :=
  negb (js_and (aget (vData this) (js_sar index (Num 3)))
               (Num (js_shl (Num 1) (Num (js_and (Num 7) index)))) =? 0).

Definition contains (this : Filter) (data : Buffer) : bool :=
  if alen (vData this) =? 0 then false
  else forallb (fun i => bit_is_set this (hash this i data))
               (seqZ 0 (nHashFuncs this)).

Definition clear (this : Filter) : Filter := set_vData this empty_array.

Definition set_nTweak (this : Filter) (t : Z) : Filter :=
  {| vData := vData this; nHashFuncs := nHashFuncs this;
     nTweak := t; nFlags := nFlags this |}.

(** ** Relevance matching *)

(** The Transaction collaborator of bitcore, as far as the matcher reads
    it.  [chunk_buf] is absent on an opcode chunk; [getPublicKeyHash] is
    a Buffer or a falsy value. *)
Record Chunk : Type := mkChunk { chunk_buf : option Buffer }.

Record Script : Type := mkScript {
  isPublicKeyHashOut : bool;
  getPublicKeyHash : option Buffer;
  isPublicKeyOut : bool;
  isMultiSigOut : bool;
  chunks : list Chunk
}.

Record Output : Type := mkOutput { output_script : Script }.

Record Input : Type := mkInput {
  prevTxId : Buffer;
  input_script : Script
}.

Record Transaction : Type := mkTransaction {
  getHash : Buffer;
  outputs : list Output;
  inputs : list Input
}.

(** The body of the loop over the outputs; the state is [found] and the
    filter. *)
Definition output_step (hash : Buffer) (st : bool * Filter) (output : Output)
  : bool * Filter :=
  let '(found, this) := st in
  let script := output_script output in
  if isPublicKeyHashOut script then
    match getPublicKeyHash script with
    | Some scriptPublicKey =>
        if contains this scriptPublicKey then
          let flags := js_and (Num (nFlags this)) (Num BLOOM_UPDATE_MASK) in
          if flags =? BLOOM_UPDATE_ALL then (true, insert this hash)
          else if flags =? BLOOM_UPDATE_P2PUBKEY_ONLY then
            if isPublicKeyOut script || isMultiSigOut script
            then (true, insert this hash)
            else (true, this)
          else (true, this)
        else (found, this)
    | None => (found, this)
    end
  else (found, this).

(** The loop over [s] in the input phase; every iteration reads
    [chunks[i]], with [i] the index of the input.  [Ok true] is the
    [return true]; [Ok false] falls out of the loop. *)
Fixpoint chunks_loop (this : Filter) (chunks : list Chunk) (i : nat)
    (iterations : nat) : result bool :=
  match iterations with
  | O => Ok false
  | S rest =>
      match chunks !! i with
      | None => Throw TypeError_undefined_property
      | Some chunk =>
          match chunk_buf chunk with
          | Some buffer =>
              if negb (Nat.eqb (length buffer) 0) && contains this buffer
              then Ok true
              else chunks_loop this chunks i rest
          | None => chunks_loop this chunks i rest
          end
      end
  end.

(** The loop over the inputs, from the input of index [i] on. *)
Fixpoint inputs_loop (this : Filter) (i : nat) (inputs : list Input)
  : result bool :=
  match inputs with
  | [] => Ok false
  | input :: rest =>
      let prevTxId := prevTxId input in
      let reversedTxPrevId := readReverse prevTxId in
      if contains this prevTxId || contains this reversedTxPrevId then Ok true
      else
        let chunks := chunks (input_script input) in
        hit ← chunks_loop this chunks i (length chunks);
        if (hit : bool) then Ok true else inputs_loop this (S i) rest
  end.

(** [Filter.prototype.isRelevantAndUpdate]: the value returned or the
    exception thrown, and the filter as the call leaves it.  [None] is an
    argument that is no instance of Transaction. *)
Definition isRelevantAndUpdate (this : Filter) (transaction : option Transaction)
  : result bool * Filter :=
  match transaction with
  | None => (Throw TypeError_not_a_Transaction, this)
  | Some transaction =>
      if alen (vData this) =? 0 then (Ok false, this)
      else
        let reversed := getHash transaction in
        let hash := readReverse reversed in
        let found := contains this hash || contains this reversed in
        let '(found, this) :=
          fold_left (output_step hash) (outputs transaction) (found, this) in
        if found then (Ok true, this)
        else (inputs_loop this 0 (inputs transaction), this)
  end.

(** ** Bits written by [insert]

    [key_of] and [bit_of] are the array key [index >> 3] and the bit
    number [7 & index] of an index; [written a index] says that the
    element of [a] at that key is a 32-bit integer with that bit set. *)
Definition key_of (index : jsval) : Z := js_sar index (Num 3).
Definition bit_of (index : jsval) : Z := js_and (Num 7) index.

Definition written (a : jsarray) (index : jsval) : Prop :=
  exists v, items a !! key_of index = Some v
            /\ wrap32 v = v /\ Z.testbit v (bit_of index) = true.

(** Every bit that [contains this data] tests is written. *)
Definition all_written (this : Filter) (data : Buffer) : Prop :=
  forall i, 0 <= i < nHashFuncs this -> written (vData this) (hash this i data).

(** ** Data of [test/index.js] *)

Definition test_a : Buffer := ParseHex "99108ad8ed9bb6274d3980bab5a85c048f0950c8".
Definition test_b : Buffer := ParseHex "19108ad8ed9bb6274d3980bab5a85c048f0950c8".
Definition test_c : Buffer := ParseHex "b5a2c786d9ef4658287ced5914b37a1b4aa32eee".
Definition test_d : Buffer := ParseHex "b9300670b4c5366e95b2699e8b18bc75e5f729c5".

(** The filter [Filter.create(3, 0.01, 0, Filter.BLOOM_UPDATE_ALL)] of the
    tests: 3 bytes and 5 hash functions. *)
Definition test_filter : Filter :=
  {| vData := array_of_list [0; 0; 0]; nHashFuncs := 5;
     nTweak := 0; nFlags := BLOOM_UPDATE_ALL |}.

(** The empty filter with one hash function, which [fromBuffer] decodes
    from the bytes [00 01000000 00000000 00]. *)
Definition empty_filter : Filter :=
  {| vData := empty_array; nHashFuncs := 1; nTweak := 0; nFlags := 0 |}.

(** ** The wire encoding *)

Definition is_byte (z : Z) : Prop := 0 <= z <= 0xff.

(** The layout [toBuffer] produces for a bit array [bytes]: the length in
    one byte, the bytes, the two 32-bit little-endian numbers and the
    flags. *)
Definition wire (bytes : list Z) (h t fl : Z) : Buffer :=
  byte_of_Z (Z.of_nat (length bytes)) :: map byte_of_Z bytes
  ++ uint32le h ++ uint32le t ++ [byte_of_Z fl].

(** Encoding, then decoding what was encoded. *)
Definition roundtrip (this : Filter) : result Filter :=
  buffer ← toBuffer this; fromBuffer buffer.

(** A bit array of 256 zero bytes, with one hash function. *)
Definition filter_256 : Filter :=
  {| vData := array_of_list (repeat 0 256); nHashFuncs := 1;
     nTweak := 0; nFlags := 0 |}.

(** One-byte filters with a field beyond what its wire field holds. *)
Definition filter_wide_nHashFuncs : Filter :=
  {| vData := array_of_list [0]; nHashFuncs := 2 ^ 32;
     nTweak := 0; nFlags := 0 |}.

Definition filter_wide_nTweak : Filter :=
  {| vData := array_of_list [0]; nHashFuncs := 1;
     nTweak := 2 ^ 32; nFlags := 0 |}.

Definition filter_wide_nFlags : Filter :=
  {| vData := array_of_list [0]; nHashFuncs := 1;
     nTweak := 0; nFlags := 256 |}.

(** A transaction with the values of the relevance tests: two
    pay-to-public-key-hash outputs, and one input whose unlocking script
    holds a signature (chunk 0) and a public key (chunk 1). *)
Definition opcode : Chunk := {| chunk_buf := None |}.

Definition p2pkh_script (pubKeyHash : Buffer) : Script :=
  {| isPublicKeyHashOut := true; getPublicKeyHash := Some pubKeyHash;
     isPublicKeyOut := false; isMultiSigOut := false;
     chunks := [opcode; opcode; mkChunk (Some pubKeyHash); opcode; opcode] |}.

Definition unlocking_script (pushed : list Buffer) : Script :=
  {| isPublicKeyHashOut := false; getPublicKeyHash := None;
     isPublicKeyOut := false; isMultiSigOut := false;
     chunks := map (fun b => mkChunk (Some b)) pushed |}.

Definition test_signature : Buffer :=
  ParseHex "30450220070aca44506c5cef3a16ed519d7c3c39f8aab192c4e1c90d065f37b8a4af6141022100a8e160b856c2d43d27d8fba71e5aef6405b8643ac4cb7cb3c462aced7f14711a01".

Definition test_pubkey : Buffer :=
  ParseHex "046d11fee51b0e60666d5049a9101a72741df480b96ee26488a4d3466b95c9a40ac5eeef87e10a5cd336c19a84565f80fa6c547957b7700ff4dfbdefe76036c339".

Definition test_input : Input :=
  {| prevTxId :=
       ParseHex "90c122d70786e899529d71dbeba91ba216982fb6ba58f3bdaab65e73b7e9260b";
     input_script := unlocking_script [test_signature; test_pubkey] |}.

Definition test_tx : Transaction :=
  {| getHash :=
       ParseHex "6bff7fcd4f8565ef406dd5d63d4ff94f318fe82027fd4dc451b04474019f74b4";
     outputs :=
       [ mkOutput (p2pkh_script (ParseHex "04943fdd508053c75000106d3bc6e2754dbcff19"));
         mkOutput (p2pkh_script (ParseHex "a266436d2965547608b9e15d9032a7b9d64fa431")) ];
     inputs := [test_input] |}.

(** The same with a second input, whose script holds the public key
    alone. *)
Definition test_tx_two_inputs : Transaction :=
  {| getHash := getHash test_tx;
     outputs := outputs test_tx;
     inputs :=
       [ test_input;
         {| prevTxId :=
              ParseHex "000000d70786e899529d71dbeba91ba216982fb6ba58f3bdaab65e73b7e9260b";
            input_script := unlocking_script [test_pubkey] |} ] |}.

(** A filter of 35 bytes and 19 hash functions, updating on every
    match. *)
Definition relevance_filter : Filter :=
  {| vData := array_of_list (repeat 0 35); nHashFuncs := 19;
     nTweak := 0; nFlags := BLOOM_UPDATE_ALL |}.

(** What one iteration of [insert] does to the array, given the index:
    [vData[index >> 3] |= (1 << (7 & index))]. *)
Definition set_bit (a : jsarray) (index : jsval) : jsarray :=
  aset a (key_of index) (js_or (aget a (key_of index)) (Num (2 ^ bit_of index))).

(** The indices [insert] and [contains] compute for a buffer. *)
Definition indices (this : Filter) (data : Buffer) : list jsval :=
  map (fun i => hash this i data) (seqZ 0 (nHashFuncs this)).

(** ** [toString] and [inspect] *)

(** [buffer.toString('hex')] of Node: two lower-case digits per byte. *)
Definition hex_char (n : Z) : ascii :=
  ascii_of_nat (Z.to_nat (if n <? 10 then 48 + n else 87 + n)).

Fixpoint toHex (b : Buffer) : string :=
  match b with
  | [] => EmptyString
  | x :: rest =>
      String (hex_char (byte_to_Z x / 16))
             (String (hex_char (byte_to_Z x mod 16)) (toHex rest))
  end.

Definition toString (this : Filter) : result string :=
  buffer ← toBuffer this; Ok (toHex buffer).

Definition inspect (this : Filter) : result string :=
  s ← toString this; Ok ("<BloomFilter: " +:+ s +:+ ">").

(** The length byte of a wire buffer. *)
Definition declared_length (buffer : Buffer) : nat :=
  match buffer with
  | [] => 0
  | b :: _ => Z.to_nat (byte_to_Z b)
  end.

(** [extends this that]: [that] has the shape of [this] (length, counts,
    tweak, flags) and every bit set in [this] set. *)
Definition extends (this that : Filter) : Prop :=
  alen (vData that) = alen (vData this)
  /\ nHashFuncs that = nHashFuncs this
  /\ nTweak that = nTweak this
  /\ nFlags that = nFlags this
  /\ forall index, bit_is_set this index = true -> bit_is_set that index = true.

(** A transaction that spends [test_tx]: its one input refers to the hash
    of [test_tx]. *)
Definition test_spending_tx : Transaction :=
  {| getHash :=
       ParseHex "00000009e784f32f62ef849763d4f45b98e07ba658647343b915ff832b110436";
     outputs := [];
     inputs :=
       [ {| prevTxId := readReverse (getHash test_tx);
            input_script := unlocking_script [test_signature; test_pubkey] |} ] |}.

(** * Properties *)

(** ** The hash reproduces the reference vectors *)

Lemma MurmurHash3_vectors :
  forallb (fun '(expected, seed, data) =>
             MurmurHash3 seed (ParseHex data) =? expected) murmur_vectors
  = true.
Proof. vm_compute. reflexivity. Qed.

Lemma MurmurHash3_vectors_last_shift :
  forallb (fun '(expected, seed, data) =>
             Murmur.hash32 15 seed (ParseHex data) =? expected) murmur_vectors
  = false.
Proof. vm_compute. reflexivity. Qed.

(** ** 32-bit arithmetic *)

Lemma wrap32_range z : - 2 ^ 31 <= wrap32 z < 2 ^ 31.
Proof.
  unfold wrap32.
  pose proof (Z.mod_pos_bound (z + 2 ^ 31) (2 ^ 32) ltac:(lia)). lia.
Qed.

Lemma wrap32_small z : - 2 ^ 31 <= z < 2 ^ 31 -> wrap32 z = z.
Proof.
  intros Hz. unfold wrap32. rewrite Z.mod_small; lia.
Qed.

Lemma wrap32_idem z : wrap32 (wrap32 z) = wrap32 z.
Proof. apply wrap32_small, wrap32_range. Qed.

Lemma wrap32_mod z : wrap32 z mod 2 ^ 32 = z mod 2 ^ 32.
Proof.
  unfold wrap32.
  rewrite Zminus_mod_idemp_l.
  f_equal. lia.
Qed.

Lemma wrap32_testbit z k :
  0 <= k < 32 -> Z.testbit (wrap32 z) k = Z.testbit z k.
Proof.
  intros Hk.
  rewrite <- (Z.mod_pow2_bits_low (wrap32 z) 32 k) by lia.
  rewrite wrap32_mod.
  apply Z.mod_pow2_bits_low. lia.
Qed.

Lemma land_pow2 x b :
  0 <= b -> Z.land x (2 ^ b) = if Z.testbit x b then 2 ^ b else 0.
Proof.
  intros Hb. apply Z.bits_inj'. intros n Hn.
  rewrite Z.land_spec, Z.pow2_bits_eqb by lia.
  destruct (Z.eqb_spec b n) as [->|Hne].
  - destruct (Z.testbit x n); simpl.
    + rewrite Z.pow2_bits_eqb, Z.eqb_refl by lia. reflexivity.
    + rewrite Z.bits_0. reflexivity.
  - rewrite andb_false_r.
    destruct (Z.testbit x b).
    + rewrite Z.pow2_bits_eqb by lia. symmetry. apply Z.eqb_neq. exact Hne.
    + rewrite Z.bits_0. reflexivity.
Qed.

Lemma pow2_byte_range b : 0 <= b <= 7 -> 1 <= 2 ^ b <= 128.
Proof.
  intros Hb. split.
  - apply (Z.pow_le_mono_r 2 0 b); lia.
  - apply (Z.pow_le_mono_r 2 b 7); lia.
Qed.

Lemma and7_range v : 0 <= js_and (Num 7) v <= 7.
Proof.
  unfold js_and.
  assert (Z.land (ToInt32 (Num 7)) (ToInt32 v) = ToInt32 v mod 8) as ->.
  { change (ToInt32 (Num 7)) with (Z.ones 3).
    rewrite Z.land_comm, Z.land_ones by lia. reflexivity. }
  pose proof (Z.mod_pos_bound (ToInt32 v) 8 ltac:(lia)) as H.
  rewrite wrap32_small by lia. lia.
Qed.

Lemma shl_one b : 0 <= b <= 7 -> js_shl (Num 1) (Num b) = 2 ^ b.
Proof.
  intros Hb. unfold js_shl. simpl.
  rewrite (wrap32_small 1) by (cbv; split; congruence).
  rewrite (Z.mod_small b) by lia.
  rewrite (Z.mod_small b) by lia.
  rewrite Z.shiftl_1_l.
  pose proof (pow2_byte_range b Hb).
  apply wrap32_small. lia.
Qed.

Lemma ToInt32_pow2 b : 0 <= b <= 7 -> ToInt32 (Num (2 ^ b)) = 2 ^ b.
Proof.
  intros Hb. simpl. pose proof (pow2_byte_range b Hb).
  apply wrap32_small. lia.
Qed.

(** The test of [contains] reads one bit of the array element. *)
Lemma and_pow2_test v b :
  0 <= b <= 7 ->
  negb (js_and v (Num (2 ^ b)) =? 0) = Z.testbit (ToInt32 v) b.
Proof.
  intros Hb. unfold js_and. rewrite ToInt32_pow2 by lia.
  rewrite land_pow2 by lia.
  pose proof (pow2_byte_range b Hb).
  destruct (Z.testbit (ToInt32 v) b).
  - rewrite wrap32_small by lia.
    destruct (Z.eqb_spec (2 ^ b) 0); [lia | reflexivity].
  - reflexivity.
Qed.

(** The update of [insert] sets one bit and keeps the others. *)
Lemma or_pow2_testbit v c b :
  0 <= c <= 7 -> 0 <= b <= 7 ->
  Z.testbit (js_or v (Num (2 ^ c))) b = Z.testbit (ToInt32 v) b || (c =? b).
Proof.
  intros Hc Hb. unfold js_or. rewrite ToInt32_pow2 by lia.
  rewrite wrap32_testbit by lia.
  rewrite Z.lor_spec, Z.pow2_bits_eqb by lia. reflexivity.
Qed.

Lemma or_pow2_absorb z c :
  0 <= c <= 7 -> wrap32 z = z -> Z.testbit z c = true ->
  js_or (Num z) (Num (2 ^ c)) = z.
Proof.
  intros Hc Hz Hbit. unfold js_or. rewrite ToInt32_pow2 by lia.
  simpl. rewrite Hz.
  assert (Z.lor z (2 ^ c) = z) as ->; [|exact Hz].
  apply Z.bits_inj'. intros n Hn.
  rewrite Z.lor_spec, Z.pow2_bits_eqb by lia.
  destruct (Z.eqb_spec c n) as [->|]; [rewrite Hbit|]; auto using orb_false_r.
Qed.

(** ** The hash is a 32-bit unsigned integer *)

Lemma lxor_u32 a b :
  0 <= a < 2 ^ 32 -> 0 <= b < 2 ^ 32 -> 0 <= Z.lxor a b < 2 ^ 32.
Proof.
  intros Ha Hb.
  assert (Z.lxor a b = Z.lxor a b mod 2 ^ 32) as ->.
  { rewrite <- (Z.mod_small a (2 ^ 32)) at 1 by lia.
    rewrite <- (Z.mod_small b (2 ^ 32)) at 1 by lia.
    apply Z.bits_inj'. intros n Hn.
    rewrite Z.lxor_spec, !Z.testbit_mod_pow2, Z.lxor_spec by lia.
    destruct (n <? 32); reflexivity. }
  apply Z.mod_pos_bound. lia.
Qed.

Lemma shiftr_u32 a n :
  0 <= a < 2 ^ 32 -> 0 <= n -> 0 <= Z.shiftr a n < 2 ^ 32.
Proof.
  intros Ha Hn. rewrite Z.shiftr_div_pow2 by lia.
  assert (0 < 2 ^ n) by (apply Z.pow_pos_nonneg; lia).
  split.
  - apply Z.div_pos; lia.
  - apply Z.le_lt_trans with a; [|lia].
    apply Z.div_le_upper_bound; nia.
Qed.

Lemma u32_range z : 0 <= Murmur.u32 z < 2 ^ 32.
Proof. apply Z.mod_pos_bound. lia. Qed.

Lemma MurmurHash3_range seed data : 0 <= MurmurHash3 seed data < 2 ^ 32.
Proof.
  unfold MurmurHash3, Murmur.hash32, Murmur.fmix.
  apply lxor_u32; [apply u32_range|].
  apply shiftr_u32; [apply u32_range | lia].
Qed.

(** ** Insertion and membership *)

Section Insert.

Variable data : Buffer.

Lemma insert_step_eq this i :
  insert_step data this i =
  let index := hash this i data in
  set_vData this
    (aset (vData this) (key_of index)
          (js_or (aget (vData this) (key_of index)) (Num (2 ^ bit_of index)))).
Proof.
  unfold insert_step. cbv zeta.
  rewrite shl_one by apply and7_range. reflexivity.
Qed.

Lemma bit_is_set_eq this index :
  bit_is_set this index =
  Z.testbit (ToInt32 (aget (vData this) (key_of index))) (bit_of index).
Proof.
  unfold bit_is_set. rewrite shl_one by apply and7_range.
  apply and_pow2_test, and7_range.
Qed.

Lemma hash_nonempty this i :
  0 < alen (vData this) ->
  exists z, hash this i data = Num z
            /\ 0 <= z < alen (vData this) * 8 /\ z < 2 ^ 32.
Proof.
  intros Hlen. unfold hash, js_rem.
  destruct (Z.eqb_spec (alen (vData this) * 8) 0) as [|_]; [lia|].
  match goal with |- context [MurmurHash3 ?s data] =>
    pose proof (MurmurHash3_range s data) as Hh;
    set (h := MurmurHash3 s data) in *
  end.
  exists (Z.rem h (alen (vData this) * 8)). split; [reflexivity|].
  rewrite Z.rem_mod_nonneg by lia.
  pose proof (Z.mod_pos_bound h (alen (vData this) * 8) ltac:(lia)).
  pose proof (Z.mod_le h (alen (vData this) * 8) ltac:(lia) ltac:(lia)).
  lia.
Qed.

(** On a non-empty array the key is below the length (or negative, when
    [ToInt32] wraps the index). *)
Lemma key_of_bound z n :
  0 <= z < n * 8 -> z < 2 ^ 32 -> key_of (Num z) < n.
Proof.
  intros Hz Hz32. unfold key_of, js_sar. simpl.
  change (3 mod 2 ^ 32 mod 32) with 3.
  rewrite Z.shiftr_div_pow2 by lia. change (2 ^ 3) with 8.
  destruct (Z.lt_ge_cases z (2 ^ 31)) as [Hlt|Hge].
  - rewrite wrap32_small by lia.
    apply Z.div_lt_upper_bound; lia.
  - assert (wrap32 z = z - 2 ^ 32) as ->.
    { unfold wrap32.
      replace (z + 2 ^ 31) with (z - 2 ^ 31 + 1 * 2 ^ 32) by lia.
      rewrite Z.mod_add, Z.mod_small by lia. lia. }
    assert ((z - 2 ^ 32) / 8 < 0) by (apply Z.div_lt_upper_bound; lia).
    lia.
Qed.

Lemma aset_alen_below a k v : k < alen a -> alen (aset a k v) = alen a.
Proof.
  intros Hk. unfold aset. simpl.
  destruct (Z.leb_spec (alen a) k); [lia|].
  rewrite andb_false_r. reflexivity.
Qed.

Lemma insert_step_alen this i :
  0 < alen (vData this) ->
  alen (vData (insert_step data this i)) = alen (vData this).
Proof.
  intros Hlen. rewrite insert_step_eq. cbv zeta. cbn [vData set_vData].
  destruct (hash_nonempty this i Hlen) as (z & -> & Hz & Hz32).
  apply aset_alen_below, key_of_bound; assumption.
Qed.

Lemma insert_step_nHashFuncs this i :
  nHashFuncs (insert_step data this i) = nHashFuncs this.
Proof. reflexivity. Qed.

Lemma insert_step_nTweak this i :
  nTweak (insert_step data this i) = nTweak this.
Proof. reflexivity. Qed.

Lemma insert_step_nFlags this i :
  nFlags (insert_step data this i) = nFlags this.
Proof. reflexivity. Qed.

(** The hash reads the length of the array and the tweak only. *)
Lemma hash_ext this that i x :
  alen (vData that) = alen (vData this) -> nTweak that = nTweak this ->
  hash that i x = hash this i x.
Proof. intros Hl Ht. unfold hash. rewrite Hl, Ht. reflexivity. Qed.

Lemma insert_step_written_self this i :
  written (vData (insert_step data this i)) (hash this i data).
Proof.
  rewrite insert_step_eq. cbv zeta.
  set (index := hash this i data).
  unfold written, aset. cbn [vData set_vData items].
  eexists. split; [apply lookup_insert_eq|]. split.
  - apply wrap32_idem.
  - rewrite or_pow2_testbit by apply and7_range.
    rewrite Z.eqb_refl. apply orb_true_r.
Qed.

Lemma insert_step_written_mono this i index :
  written (vData this) index ->
  written (vData (insert_step data this i)) index.
Proof.
  intros (v & Hv & Hwrap & Hbit).
  rewrite insert_step_eq. cbv zeta.
  set (index' := hash this i data).
  unfold written, aset. cbn [vData set_vData items].
  destruct (decide (key_of index' = key_of index)) as [Heq|Hne].
  - rewrite Heq. eexists. split; [apply lookup_insert_eq|]. split.
    + apply wrap32_idem.
    + rewrite or_pow2_testbit by apply and7_range.
      unfold aget. rewrite Hv. simpl. rewrite Hwrap, Hbit. reflexivity.
  - exists v. split; [|split; assumption].
    rewrite lookup_insert_ne by exact Hne. exact Hv.
Qed.

Lemma written_bit_is_set this index :
  written (vData this) index -> bit_is_set this index = true.
Proof.
  intros (v & Hv & Hwrap & Hbit).
  rewrite bit_is_set_eq. unfold aget. rewrite Hv. simpl.
  rewrite Hwrap. exact Hbit.
Qed.

(** Setting a bit that is set already changes nothing. *)
Lemma insert_step_id this i :
  0 < alen (vData this) ->
  written (vData this) (hash this i data) ->
  insert_step data this i = this.
Proof.
  intros Hlen (v & Hv & Hwrap & Hbit).
  rewrite insert_step_eq. cbv zeta.
  destruct (hash_nonempty this i Hlen) as (z & Hz & Hrange & Hz32).
  rewrite Hz in *.
  unfold aget at 1. rewrite Hv.
  rewrite or_pow2_absorb by (try apply and7_range; assumption).
  destruct this as [[m n] h t fl]. unfold set_vData, aset. simpl in *.
  f_equal. f_equal.
  - apply insert_id. exact Hv.
  - pose proof (key_of_bound z n Hrange Hz32).
    destruct (Z.leb_spec n (key_of (Num z))); [lia|].
    rewrite andb_false_r. reflexivity.
Qed.

End Insert.

Section InsertLoop.

Variable data : Buffer.

Lemma fold_insert_step_fields l : forall this,
  0 < alen (vData this) ->
  let r := fold_left (insert_step data) l this in
  alen (vData r) = alen (vData this) /\ nHashFuncs r = nHashFuncs this
  /\ nTweak r = nTweak this /\ nFlags r = nFlags this.
Proof.
  induction l as [|i l IH]; intros this Hlen; simpl; [tauto|].
  pose proof (insert_step_alen data this i Hlen) as Hstep.
  destruct (IH (insert_step data this i)) as (Ha & Hn & Ht & Hf); [lia|].
  rewrite Ha, Hn, Ht, Hf, Hstep. tauto.
Qed.

Lemma fold_insert_step_written_mono l index : forall this,
  written (vData this) index ->
  written (vData (fold_left (insert_step data) l this)) index.
Proof.
  induction l as [|i l IH]; intros this Hw; simpl; [exact Hw|].
  apply IH, insert_step_written_mono, Hw.
Qed.

Lemma fold_insert_step_written l i : forall this,
  0 < alen (vData this) -> In i l ->
  written (vData (fold_left (insert_step data) l this)) (hash this i data).
Proof.
  induction l as [|j l IH]; intros this Hlen Hin; simpl; [destruct Hin|].
  destruct Hin as [->|Hin].
  - apply fold_insert_step_written_mono, insert_step_written_self.
  - rewrite <- (hash_ext this (insert_step data this j) i data).
    + apply IH; [rewrite insert_step_alen; assumption | exact Hin].
    + apply insert_step_alen, Hlen.
    + reflexivity.
Qed.

Lemma insert_fields this :
  0 < alen (vData this) ->
  alen (vData (insert this data)) = alen (vData this)
  /\ nHashFuncs (insert this data) = nHashFuncs this
  /\ nTweak (insert this data) = nTweak this
  /\ nFlags (insert this data) = nFlags this.
Proof. intros Hlen. apply (fold_insert_step_fields _ this Hlen). Qed.

Lemma insert_written_mono this index :
  written (vData this) index -> written (vData (insert this data)) index.
Proof. apply fold_insert_step_written_mono. Qed.

Lemma insert_all_written this :
  0 < alen (vData this) -> all_written (insert this data) data.
Proof.
  intros Hlen i Hi.
  destruct (insert_fields this Hlen) as (Ha & Hn & Ht & _).
  rewrite (hash_ext this) by assumption.
  apply fold_insert_step_written; [exact Hlen|].
  apply list_elem_of_In, elem_of_seqZ. lia.
Qed.

Lemma all_written_contains this :
  0 < alen (vData this) -> all_written this data -> contains this data = true.
Proof.
  intros Hlen Hall. unfold contains.
  destruct (Z.eqb_spec (alen (vData this)) 0) as [|_]; [lia|].
  apply forallb_forall. intros i Hi.
  apply list_elem_of_In, elem_of_seqZ in Hi.
  apply written_bit_is_set, Hall. lia.
Qed.

(** On a non-empty filter a second [insert] of the same data rewrites
    every element with the value it holds. *)
Lemma insert_twice_nonempty this :
  0 < alen (vData this) ->
  insert (insert this data) data = insert this data.
Proof.
  intros Hlen.
  pose proof (insert_all_written this Hlen) as Hall.
  destruct (insert_fields this Hlen) as (Ha & _).
  set (that := insert this data) in *.
  unfold insert at 1.
  assert (forall l, (forall i, In i l -> 0 <= i < nHashFuncs that) ->
                    fold_left (insert_step data) l that = that) as Hfix.
  { induction l as [|i l IH]; intros Hl; simpl; [reflexivity|].
    rewrite insert_step_id.
    - apply IH. intros j Hj. apply Hl. right. exact Hj.
    - lia.
    - apply Hall, Hl. left. reflexivity. }
  apply Hfix. intros i Hi.
  apply list_elem_of_In, elem_of_seqZ in Hi. lia.
Qed.

End InsertLoop.

Lemma insert_all_written_other this x y :
  0 < alen (vData this) -> all_written this x -> all_written (insert this y) x.
Proof.
  intros Hlen Hall i Hi.
  destruct (insert_fields y this Hlen) as (Ha & Hn & Ht & _).
  rewrite (hash_ext this) by assumption.
  apply insert_written_mono, Hall. lia.
Qed.

Lemma fold_insert_all_written x ys : forall this,
  0 < alen (vData this) -> all_written this x ->
  0 < alen (vData (fold_left insert ys this))
  /\ all_written (fold_left insert ys this) x.
Proof.
  induction ys as [|y ys IH]; intros this Hlen Hall; simpl; [tauto|].
  apply IH.
  - destruct (insert_fields y this Hlen) as (Ha & _). lia.
  - apply insert_all_written_other; assumption.
Qed.

(** C6.  Membership soundness: on a filter whose bit array is not empty,
    [contains x] is true after [insert x], and after any further
    sequence [ys] of inserted buffers (the empty sequence is the moment
    right after the insertion). *)
Theorem contains_after_insert (this : Filter) (x : Buffer) (ys : list Buffer) :
  0 < alen (vData this) ->
  contains (fold_left insert ys (insert this x)) x = true.
Proof.
  intros Hlen.
  destruct (insert_fields x this Hlen) as (Ha & _).
  destruct (fold_insert_all_written x ys (insert this x)) as (Hlen' & Hall).
  - lia.
  - apply insert_all_written, Hlen.
  - apply all_written_contains; assumption.
Qed.

Lemma contains_after_insert_witness :
  0 < alen (vData test_filter)
  /\ contains (fold_left insert [test_c; test_d] (insert test_filter test_a))
              test_a = true.
Proof.
  split; [reflexivity|].
  apply (contains_after_insert test_filter test_a [test_c; test_d]).
  reflexivity.
Defined.

(** The serialization tests of [test/index.js] hold of the embedding. *)
Lemma test_serialize :
  toBuffer (insert (insert (insert test_filter test_a) test_c) test_d)
  = Ok (ParseHex "03614e9b050000000000000001")
  /\ toBuffer (insert (insert (insert (set_nTweak test_filter 2147483649)
                                      test_a) test_c) test_d)
     = Ok (ParseHex "03ce4299050000000100008001").
Proof. split; vm_compute; reflexivity. Qed.

Lemma test_deserialize :
  exists filter,
    fromBuffer (ParseHex "03614e9b050000000000000001") = Ok filter
    /\ contains filter test_a = true /\ contains filter test_b = false
    /\ contains filter test_c = true /\ contains filter test_d = true.
Proof. eexists. split; [vm_compute; reflexivity|]. vm_compute. tauto. Qed.

(** ** The empty filter *)

Lemma hash_empty this i data :
  alen (vData this) = 0 -> hash this i data = NaN.
Proof. intros Hlen. unfold hash. rewrite Hlen. reflexivity. Qed.

(** The first iteration of [insert] on an empty array writes element 0
    and so makes the array one element long. *)
Lemma insert_step_empty this i data :
  alen (vData this) = 0 ->
  alen (vData (insert_step data this i)) = 1.
Proof.
  intros Hlen. rewrite insert_step_eq, hash_empty by exact Hlen.
  cbv zeta. unfold aset. cbn [vData set_vData alen]. rewrite Hlen.
  reflexivity.
Qed.

Lemma insert_empty_alen this data :
  alen (vData this) = 0 -> 1 <= nHashFuncs this ->
  alen (vData (insert this data)) = 1.
Proof.
  intros Hlen Hn. unfold insert.
  replace (nHashFuncs this) with (Z.succ (nHashFuncs this - 1)) by lia.
  rewrite seqZ_cons by lia. simpl.
  pose proof (insert_step_empty this 0 data Hlen) as Hone.
  destruct (fold_insert_step_fields data
              (seqZ (Z.succ 0) (Z.pred (Z.succ (nHashFuncs this - 1))))
              (insert_step data this 0)) as (Ha & _); [lia|].
  rewrite Ha. exact Hone.
Qed.

(** C4.  [insert] on an empty filter is no no-op.  The empty filter with
    one hash function is what [fromBuffer] decodes from
    [00 01000000 00000000 00]; [insert] computes the index [NaN], writes
    [vData[0] |= 1] and leaves a bit array of one byte, [[1]]. *)
Theorem insert_on_empty_filter :
  fromBuffer (ParseHex "00010000000000000000") = Ok empty_filter
  /\ alen (vData empty_filter) = 0
  /\ hash empty_filter 0 test_c = NaN
  /\ insert empty_filter test_c = set_vData empty_filter (array_of_list [1])
  /\ alen (vData (insert empty_filter test_c)) = 1.
Proof.
  split; [vm_compute; reflexivity|]. split; [reflexivity|].
  split; [reflexivity|]. split; vm_compute; reflexivity.
Qed.

(** C8.  On the empty filter a second [insert] of the same buffer changes
    the bit array: the first call writes bit 0 of a new byte (the index
    is [NaN]), the second hashes modulo the 8 bits of that byte and sets
    bit 1.  [contains] of the buffer is false after the first call and
    true after the second. *)
Theorem insert_twice_on_empty_filter :
  vData (insert empty_filter test_c) = array_of_list [1]
  /\ vData (insert (insert empty_filter test_c) test_c) = array_of_list [3]
  /\ contains (insert empty_filter test_c) test_c = false
  /\ contains (insert (insert empty_filter test_c) test_c) test_c = true.
Proof.
  split; [vm_compute; reflexivity|]. split; [vm_compute; reflexivity|].
  split; vm_compute; reflexivity.
Qed.

(** C7.  Empty-filter law: after [clear], [contains] is false for every
    buffer; on a filter whose bit array is empty, [isRelevantAndUpdate]
    returns false for every transaction and leaves the filter as it
    is. *)
Theorem empty_filter_law :
  (forall (this : Filter) (x : Buffer), contains (clear this) x = false)
  /\ (forall (this : Filter) (transaction : Transaction),
        alen (vData this) = 0 ->
        isRelevantAndUpdate this (Some transaction) = (Ok false, this)).
Proof.
  split.
  - intros this x. reflexivity.
  - intros this transaction Hlen. unfold isRelevantAndUpdate.
    rewrite Hlen. reflexivity.
Qed.

(** ** Bytes and the reader *)

Lemma byte_to_Z_range b : 0 <= byte_to_Z b <= 255.
Proof.
  unfold byte_to_Z. pose proof (Byte.to_N_bounded b). lia.
Qed.

Lemma byte_to_of_Z z : byte_to_Z (byte_of_Z z) = z mod 256.
Proof.
  unfold byte_to_Z, byte_of_Z.
  pose proof (Z.mod_pos_bound z 256 ltac:(lia)) as Hm.
  destruct (Byte.of_N (Z.to_N (z mod 256))) as [b|] eqn:E.
  - apply Byte.to_of_N in E. rewrite E. lia.
  - apply Byte.of_N_None_iff in E. lia.
Qed.

Lemma byte_to_of_Z_small z : 0 <= z <= 255 -> byte_to_Z (byte_of_Z z) = z.
Proof. intros Hz. rewrite byte_to_of_Z. apply Z.mod_small. lia. Qed.

Lemma byte_of_to_Z b : byte_of_Z (byte_to_Z b) = b.
Proof.
  unfold byte_of_Z. pose proof (byte_to_Z_range b).
  rewrite Z.mod_small by lia. unfold byte_to_Z.
  rewrite N2Z.id, Byte.of_to_N. reflexivity.
Qed.

Lemma drop_cons_inv (buffer : Buffer) (p : nat) b rest :
  drop p buffer = b :: rest ->
  buffer !! p = Some b /\ drop (S p) buffer = rest.
Proof.
  intros H. split.
  - rewrite <- (Nat.add_0_r p), <- lookup_drop, H. reflexivity.
  - replace (S p) with (p + 1)%nat by lia.
    rewrite <- drop_drop, H. reflexivity.
Qed.

Lemma readUInt8_drop buffer p b rest :
  drop p buffer = b :: rest ->
  readUInt8 {| buf := buffer; pos := p |}
  = Ok (byte_to_Z b, {| buf := buffer; pos := S p |})
  /\ drop (S p) buffer = rest.
Proof.
  intros H. apply drop_cons_inv in H as [Hb Hrest].
  unfold readUInt8. simpl. rewrite Hb. auto.
Qed.

Lemma readUInt32LE_drop buffer p b0 b1 b2 b3 rest :
  drop p buffer = b0 :: b1 :: b2 :: b3 :: rest ->
  readUInt32LE {| buf := buffer; pos := p |}
  = Ok (uint32le_value b0 b1 b2 b3, {| buf := buffer; pos := (p + 4)%nat |})
  /\ drop (p + 4) buffer = rest.
Proof.
  intros H. unfold readUInt32LE. simpl. rewrite H. split; [reflexivity|].
  rewrite <- drop_drop, H. reflexivity.
Qed.

Lemma read_vData_drop buffer bs : forall a p rest,
  drop p buffer = bs ++ rest ->
  read_vData (length bs) a {| buf := buffer; pos := p |}
  = Ok (fold_left push (map byte_to_Z bs) a,
        {| buf := buffer; pos := (p + length bs)%nat |})
  /\ drop (p + length bs) buffer = rest.
Proof.
  induction bs as [|b bs IH]; intros a p rest H; simpl.
  - rewrite Nat.add_0_r. auto.
  - apply readUInt8_drop in H as [Hread Hrest].
    rewrite Hread. simpl.
    destruct (IH (push a (byte_to_Z b)) (S p) rest Hrest) as [Hr Hd].
    replace (p + S (length bs))%nat with (S p + length bs)%nat by lia.
    auto.
Qed.

(** The four little-endian bytes [writeUInt32LE] appends decode to the
    number written. *)
Lemma uint32le_decode z :
  0 <= z <= 0xffffffff ->
  uint32le_value (byte_of_Z z) (byte_of_Z (Z.shiftr z 8))
                 (byte_of_Z (Z.shiftr z 16)) (byte_of_Z (Z.shiftr z 24)) = z.
Proof.
  intros Hz. unfold uint32le_value.
  rewrite !byte_to_of_Z, !Z.shiftr_div_pow2 by lia.
  change (2 ^ 8) with 256. change (2 ^ 16) with (256 * 256).
  change (2 ^ 24) with (256 * 256 * 256).
  rewrite <- !Z.div_div by lia.
  pose proof (Z.div_mod z 256 ltac:(lia)).
  pose proof (Z.div_mod (z / 256) 256 ltac:(lia)).
  pose proof (Z.div_mod (z / 256 / 256) 256 ltac:(lia)).
  assert (z / 256 / 256 / 256 < 256).
  { rewrite !Z.div_div by lia. apply Z.div_lt_upper_bound; lia. }
  assert (0 <= z / 256 / 256 / 256).
  { rewrite !Z.div_div by lia. apply Z.div_pos; lia. }
  rewrite (Z.mod_small (z / 256 / 256 / 256)) by lia.
  lia.
Qed.

(** ** Arrays built by [push] *)

Lemma push_spec a v :
  0 <= alen a < 2 ^ 32 - 1 ->
  alen (push a v) = alen a + 1 /\ items (push a v) = <[alen a := v]> (items a).
Proof.
  intros Ha. unfold push, aset. simpl.
  destruct (Z.leb_spec 0 (alen a)); [|lia].
  destruct (Z.ltb_spec (alen a) (2 ^ 32 - 1)); [|lia].
  rewrite Z.leb_refl. auto.
Qed.

Lemma fold_push_spec (l : list Z) : forall a,
  0 <= alen a -> alen a + Z.of_nat (length l) <= 2 ^ 32 - 1 ->
  alen (fold_left push l a) = alen a + Z.of_nat (length l)
  /\ forall k,
       items (fold_left push l a) !! k =
       if decide (alen a <= k < alen a + Z.of_nat (length l))
       then l !! Z.to_nat (k - alen a)
       else items a !! k.
Proof.
  induction l as [|x l IH]; intros a Ha Hlen; simpl.
  - split; [lia|]. intros k. destruct (decide _); [lia | reflexivity].
  - simpl length in Hlen.
    destruct (push_spec a x) as [Hal Hit]; [lia|].
    destruct (IH (push a x)) as [Hal' Hit']; [lia | lia |].
    split; [lia|]. intros k. rewrite Hit', Hal, Hit.
    destruct (decide (alen a + 1 <= k < alen a + 1 + Z.of_nat (length l))).
    + destruct (decide _); [|lia].
      replace (Z.to_nat (k - alen a)) with (S (Z.to_nat (k - (alen a + 1))))
        by lia.
      reflexivity.
    + destruct (decide (k = alen a)) as [->|Hne].
      * rewrite lookup_insert_eq. destruct (decide _); [|lia].
        replace (Z.to_nat (alen a - alen a)) with 0%nat by lia. reflexivity.
      * rewrite lookup_insert_ne by congruence.
        destruct (decide _); [lia | reflexivity].
Qed.

Lemma array_of_list_alen (l : list Z) :
  Z.of_nat (length l) <= 2 ^ 32 - 1 ->
  alen (array_of_list l) = Z.of_nat (length l).
Proof.
  intros Hlen. unfold array_of_list.
  destruct (fold_push_spec l empty_array) as [H _]; simpl; [lia | lia |].
  rewrite H. reflexivity.
Qed.

Lemma array_of_list_aget (l : list Z) (j : nat) x :
  Z.of_nat (length l) <= 2 ^ 32 - 1 ->
  l !! j = Some x -> aget (array_of_list l) (Z.of_nat j) = Num x.
Proof.
  intros Hlen Hj. unfold array_of_list, aget.
  destruct (fold_push_spec l empty_array) as [_ H]; simpl; [lia | lia |].
  rewrite H. simpl.
  apply lookup_lt_Some in Hj as Hlt.
  destruct (decide _); [|lia].
  rewrite Z.sub_0_r, Nat2Z.id, Hj. reflexivity.
Qed.

(** ** Encoding and decoding *)

Lemma writeUInt8_ok z bw :
  is_byte z -> writeUInt8 (Num z) bw = Ok (bw ++ [byte_of_Z z]).
Proof.
  unfold is_byte, writeUInt8. intros Hz.
  destruct (Z.leb_spec 0 z); [|lia]. destruct (Z.leb_spec z 0xff); [|lia].
  reflexivity.
Qed.

Lemma writeUInt32LE_ok z bw :
  0 <= z <= 0xffffffff -> writeUInt32LE (Num z) bw = Ok (bw ++ uint32le z).
Proof.
  unfold writeUInt32LE. intros Hz.
  destruct (Z.leb_spec 0 z); [|lia].
  destruct (Z.leb_spec z 0xffffffff); [|lia].
  reflexivity.
Qed.

Lemma bind_Ok {A B} (a : A) (k : A -> result B) : Ok a ≫= k = k a.
Proof. reflexivity. Qed.

(** One step of a sequence of reads or writes that succeeded. *)
Ltac bind_step := rewrite bind_Ok; cbv beta iota.
Ltac bind_step_in H := rewrite bind_Ok in H; cbv beta iota in H.

Lemma write_vData_spec v (l : list Z) : forall m bw,
  (forall (j : nat) x, l !! j = Some x -> aget v (m + Z.of_nat j) = Num x) ->
  Forall is_byte l ->
  write_vData v (seqZ m (Z.of_nat (length l))) bw = Ok (bw ++ map byte_of_Z l).
Proof.
  induction l as [|x l IH]; intros m bw Hget Hbytes.
  - simpl. rewrite app_nil_r. reflexivity.
  - rewrite seqZ_cons by (simpl; lia).
    replace (Z.pred (Z.of_nat (length (x :: l)))) with (Z.of_nat (length l))
      by (simpl; lia).
    simpl.
    pose proof (Hget 0%nat x eq_refl) as H0.
    change (Z.of_nat 0) with 0 in H0. rewrite Z.add_0_r in H0. rewrite H0.
    inversion Hbytes as [|? ? Hx Hl]; subst.
    rewrite writeUInt8_ok, bind_Ok by exact Hx. rewrite IH.
    + rewrite <- app_assoc. reflexivity.
    + intros j y Hj. rewrite <- (Hget (S j) y Hj). f_equal. lia.
    + exact Hl.
Qed.

Lemma toBuffer_wire (bytes : list Z) (h t fl : Z) :
  Forall is_byte bytes -> (length bytes <= 255)%nat ->
  0 <= h <= 0xffffffff -> 0 <= t <= 0xffffffff -> is_byte fl ->
  toBuffer {| vData := array_of_list bytes; nHashFuncs := h;
              nTweak := t; nFlags := fl |}
  = Ok (wire bytes h t fl).
Proof.
  intros Hbytes Hlen Hh Ht Hfl. unfold toBuffer, toBufferWriter.
  cbn [vData nHashFuncs nTweak nFlags].
  rewrite array_of_list_alen by lia.
  rewrite writeUInt8_ok, bind_Ok by (unfold is_byte; lia).
  rewrite (write_vData_spec (array_of_list bytes) bytes 0), bind_Ok;
    [|intros j x Hj; apply array_of_list_aget; [lia | exact Hj]
     |exact Hbytes].
  rewrite writeUInt32LE_ok, bind_Ok by exact Hh.
  rewrite writeUInt32LE_ok, bind_Ok by exact Ht.
  rewrite writeUInt8_ok by exact Hfl.
  unfold wire. rewrite <- !app_assoc. reflexivity.
Qed.

(** What the reader extracts from a buffer that starts with a length
    byte, that many bytes, eight bytes for the two numbers and one for
    the flags. *)
Lemma transformBufferReader_layout (data : list byte)
    (h0 h1 h2 h3 t0 t1 t2 t3 fl : byte) (rest : list byte) :
  (length data <= 255)%nat ->
  _transformBufferReader
    {| buf := byte_of_Z (Z.of_nat (length data)) :: data
              ++ [h0; h1; h2; h3] ++ [t0; t1; t2; t3] ++ fl :: rest;
       pos := 0 |}
  = Ok {| arg_vData := Some (array_of_list (map byte_to_Z data));
          arg_nHashFuncs := Num (uint32le_value h0 h1 h2 h3);
          arg_nTweak := Num (uint32le_value t0 t1 t2 t3);
          arg_nFlags := Num (byte_to_Z fl) |}.
Proof.
  intros Hlen. unfold _transformBufferReader.
  set (buffer := _ :: _).
  destruct (readUInt8_drop buffer 0 _ _ eq_refl) as [-> Hd1].
  bind_step.
  rewrite byte_to_of_Z_small, Nat2Z.id by lia.
  destruct (read_vData_drop buffer data empty_array 1 _ Hd1) as [-> Hd2].
  bind_step.
  destruct (readUInt32LE_drop buffer _ _ _ _ _ _ Hd2) as [-> Hd3].
  bind_step.
  destruct (readUInt32LE_drop buffer _ _ _ _ _ _ Hd3) as [-> Hd4].
  bind_step.
  destruct (readUInt8_drop buffer _ _ _ Hd4) as [-> _].
  bind_step.
  reflexivity.
Qed.

Lemma map_byte_to_of_Z (l : list Z) :
  Forall is_byte l -> map byte_to_Z (map byte_of_Z l) = l.
Proof.
  induction 1 as [|x l Hx _ IH]; simpl; [reflexivity|].
  rewrite byte_to_of_Z_small, IH by exact Hx. reflexivity.
Qed.

Lemma fromBuffer_wire (bytes : list Z) (h t fl : Z) :
  Forall is_byte bytes -> (length bytes <= 255)%nat ->
  1 <= h <= 0xffffffff -> 0 <= t <= 0xffffffff -> is_byte fl ->
  fromBuffer (wire bytes h t fl)
  = Ok {| vData := array_of_list bytes; nHashFuncs := h;
          nTweak := t; nFlags := fl |}.
Proof.
  intros Hbytes Hlen Hh Ht Hfl. unfold fromBuffer, wire, uint32le.
  rewrite <- (length_map byte_of_Z bytes).
  rewrite (transformBufferReader_layout (map byte_of_Z bytes) _ _ _ _ _ _ _ _ _ [])
    by (rewrite length_map; exact Hlen).
  rewrite map_byte_to_of_Z, !uint32le_decode, byte_to_of_Z_small
    by (assumption || lia).
  simpl. unfold new_Filter. simpl.
  destruct (Z.eqb_spec h 0); [lia|]. simpl.
  f_equal. f_equal.
  - unfold js_or_else. simpl. destruct (t =? 0) eqn:E; simpl; [lia|reflexivity].
  - unfold js_or_else. simpl. destruct (fl =? 0) eqn:E; simpl; [|reflexivity].
    unfold BLOOM_UPDATE_NONE. lia.
Qed.

(** C1 (amended).  For every filter whose bit array is a sequence of at
    most 255 bytes, with a hash-function count from 1 to [2^32 - 1], a
    tweak below [2^32] and flags of one byte, decoding the encoding gives
    the filter back, field by field. *)
Theorem roundtrip_short_filter (bytes : list Z) (h t fl : Z) :
  Forall is_byte bytes -> (length bytes <= 255)%nat ->
  1 <= h <= 0xffffffff -> 0 <= t <= 0xffffffff -> is_byte fl ->
  roundtrip {| vData := array_of_list bytes; nHashFuncs := h;
               nTweak := t; nFlags := fl |}
  = Ok {| vData := array_of_list bytes; nHashFuncs := h;
          nTweak := t; nFlags := fl |}.
Proof.
  intros Hbytes Hlen Hh Ht Hfl. unfold roundtrip.
  rewrite toBuffer_wire, bind_Ok by (assumption || lia).
  apply fromBuffer_wire; assumption.
Qed.

Lemma roundtrip_short_filter_witness :
  Forall is_byte [97; 78; 155] /\ (length [97; 78; 155] <= 255)%nat
  /\ 1 <= 5 <= 0xffffffff /\ 0 <= 0 <= 0xffffffff /\ is_byte 1
  /\ roundtrip {| vData := array_of_list [97; 78; 155]; nHashFuncs := 5;
                  nTweak := 0; nFlags := 1 |}
     = Ok {| vData := array_of_list [97; 78; 155]; nHashFuncs := 5;
             nTweak := 0; nFlags := 1 |}.
Proof.
  assert (Forall is_byte [97; 78; 155]) as Hbytes
    by (repeat constructor; unfold is_byte; lia).
  assert (is_byte 1) as Hfl by (unfold is_byte; lia).
  split; [exact Hbytes|]. split; [simpl; lia|]. split; [lia|].
  split; [lia|]. split; [exact Hfl|].
  apply (roundtrip_short_filter [97; 78; 155] 5 0 1);
    [exact Hbytes | simpl; lia | lia | lia | exact Hfl].
Defined.

(** C1 (as stated) fails: the constructor admits the filter of 256 zero
    bytes, and its encoding throws at the length byte, [writeUInt8(256)];
    nothing is decoded.  The constructor also admits a hash-function
    count or a tweak of [2^32] and flags of 256, and the encoding throws
    at each. *)
Lemma roundtrip_long_filter_fails :
  new_Filter (Some (toObject filter_256)) = Ok filter_256
  /\ toBuffer filter_256 = Throw RangeError_value
  /\ roundtrip filter_256 <> Ok filter_256
  /\ Forall (fun this => new_Filter (Some (toObject this)) = Ok this
                         /\ roundtrip this = Throw RangeError_value)
            [filter_wide_nHashFuncs; filter_wide_nTweak; filter_wide_nFlags].
Proof.
  assert (toBuffer filter_256 = Throw RangeError_value) as H
    by (vm_compute; reflexivity).
  split; [vm_compute; reflexivity|]. split; [exact H|]. split.
  - unfold roundtrip. rewrite H. discriminate.
  - repeat constructor; vm_compute; reflexivity.
Qed.


(** ** The constructor and the hash-function count *)

Lemma new_Filter_nHashFuncs arg this :
  new_Filter arg = Ok this -> nHashFuncs this <> 0.
Proof.
  unfold new_Filter. destruct arg as [arg|]; [|discriminate].
  destruct (arg_vData arg); [|discriminate].
  destruct (arg_nHashFuncs arg) as [| |z]; simpl; try discriminate.
  destruct (Z.eqb_spec z 0); simpl; [discriminate|].
  intros [= <-]. simpl. assumption.
Qed.

(** C9.  [fromBuffer] rejects a buffer whose hash-function count is 0:
    on the wire layout with four zero bytes in that field, and whenever
    the reader decodes the count 0, the constructor throws its TypeError;
    and no entry point ([new Filter], [fromBuffer], [fromObject],
    [fromJSON], [create]) returns a filter whose count is 0. *)
Theorem zero_nHashFuncs_rejected :
  (forall (data : list byte) (t0 t1 t2 t3 fl : byte) (rest : list byte),
     (length data <= 255)%nat ->
     fromBuffer (byte_of_Z (Z.of_nat (length data)) :: data
                 ++ [x00; x00; x00; x00] ++ [t0; t1; t2; t3] ++ fl :: rest)
     = Throw TypeError_nHashFuncs)
  /\ (forall (buffer : Buffer) (info : FilterArg),
        _transformBufferReader {| buf := buffer; pos := 0 |} = Ok info ->
        arg_nHashFuncs info = Num 0 ->
        fromBuffer buffer = Throw TypeError_nHashFuncs)
  /\ (forall arg this, new_Filter arg = Ok this -> nHashFuncs this <> 0)
  /\ (forall buffer this, fromBuffer buffer = Ok this -> nHashFuncs this <> 0)
  /\ (forall data this, fromObject data = Ok this -> nHashFuncs this <> 0)
  /\ (forall JSON_parse data this,
        fromJSON JSON_parse data = Ok this -> nHashFuncs this <> 0)
  /\ (forall elements falsePositiveRate nTweak nFlags this,
        create elements falsePositiveRate nTweak nFlags = Ok this ->
        nHashFuncs this <> 0).
Proof.
  assert (forall (buffer : Buffer) (info : FilterArg),
            _transformBufferReader {| buf := buffer; pos := 0 |} = Ok info ->
            arg_nHashFuncs info = Num 0 ->
            fromBuffer buffer = Throw TypeError_nHashFuncs) as Hzero.
  { intros buffer info Hread Hcount. unfold fromBuffer.
    rewrite Hread, bind_Ok.
    pose proof Hread as Hv. unfold _transformBufferReader in Hv.
    destruct (readUInt8 _) as [[? ?]|]; [|discriminate].
    bind_step_in Hv.
    destruct (read_vData _ _ _) as [[? ?]|]; [|discriminate].
    bind_step_in Hv.
    destruct (readUInt32LE _) as [[? ?]|]; [|discriminate].
    bind_step_in Hv.
    destruct (readUInt32LE _) as [[? ?]|]; [|discriminate].
    bind_step_in Hv.
    destruct (readUInt8 _) as [[? ?]|]; [|discriminate].
    bind_step_in Hv.
    injection Hv as <-. simpl in Hcount. injection Hcount as ->.
    reflexivity. }
  split; [|split; [exact Hzero|]].
  - intros data t0 t1 t2 t3 fl rest Hlen.
    eapply Hzero; [apply transformBufferReader_layout, Hlen | reflexivity].
  - split; [exact new_Filter_nHashFuncs|]. split; [|split; [|split]].
    + intros buffer this. unfold fromBuffer.
      destruct (_transformBufferReader _); [|discriminate].
      rewrite bind_Ok. apply new_Filter_nHashFuncs.
    + intros data this. apply new_Filter_nHashFuncs.
    + intros JSON_parse [s|o] this; unfold fromJSON;
        [destruct (JSON_parse s); [|discriminate|]|];
        apply new_Filter_nHashFuncs.
    + intros elements fpr tw fl this. apply new_Filter_nHashFuncs.
Qed.

Lemma zero_nHashFuncs_rejected_witness :
  fromBuffer (ParseHex "00000000000000000000") = Throw TypeError_nHashFuncs.
Proof.
  exact (proj1 zero_nHashFuncs_rejected [] x00 x00 x00 x00 x00 []
               ltac:(simpl; lia)).
Defined.

(** C10.  [toJSON] returns [undefined] for every filter; the string that
    [JSON.stringify] builds from [toObject] (never empty: it opens with a
    brace) is dropped. *)
Theorem toJSON_undefined (this : Filter) :
  toJSON this = None
  /\ exists s, JSON_stringify (toObject this) = String "{" s.
Proof.
  split; [reflexivity|]. unfold JSON_stringify. simpl. eexists. reflexivity.
Qed.

(** ** Sizing *)

Section Sizing.

Local Open Scope R_scope.

Lemma Rneg_true x : x < 0 -> Rneg x = true.
Proof. intros H. unfold Rneg. destruct (Rlt_dec x 0); [reflexivity | lra]. Qed.

Lemma Rneg_false x : 0 <= x -> Rneg x = false.
Proof. intros H. unfold Rneg. destruct (Rlt_dec x 0); [lra | reflexivity]. Qed.

Lemma Rzero_true : Rzero 0 = true.
Proof. unfold Rzero. destruct (Req_dec_T 0 0); [reflexivity | lra]. Qed.

Lemma Rzero_false x : x <> 0 -> Rzero x = false.
Proof.
  intros H. unfold Rzero. destruct (Req_dec_T x 0); [contradiction | reflexivity].
Qed.

Lemma LN2_bounds : / 2 < LN2 < 1.
Proof.
  unfold LN2. split; [apply ln_lt_2|].
  rewrite <- (ln_exp 1). apply ln_increasing; [lra|].
  pose proof (exp_ineq1 1 ltac:(lra)). lra.
Qed.

Lemma LN2SQUARED_bounds : 0 < LN2SQUARED < 1.
Proof.
  pose proof LN2_bounds as H. unfold LN2SQUARED. fold LN2.
  simpl. rewrite Rmult_1_r. nra.
Qed.

Lemma ln_negative p : 0 < p < 1 -> ln p < 0.
Proof.
  intros Hp. rewrite <- ln_1. apply ln_increasing; lra.
Qed.

(** The size in bits, for a finite element count and a positive rate. *)
Lemma size_finite n p :
  0 < p ->
  dmul (dmul (ddiv (Fin (-1)) (Fin LN2SQUARED)) (Fin n)) (Math_log (Fin p))
  = Fin (-1 / LN2SQUARED * n * ln p).
Proof.
  intros Hp. pose proof LN2SQUARED_bounds.
  unfold ddiv, Math_log.
  rewrite Rzero_false, Rneg_false, Rzero_false by lra.
  reflexivity.
Qed.

End Sizing.

Lemma push_zeros_alen n : forall a,
  0 <= alen a -> alen a + Z.of_nat n <= 2 ^ 32 - 1 ->
  alen (push_zeros n a) = alen a + Z.of_nat n.
Proof.
  induction n as [|n IH]; intros a Ha Hn.
  - simpl. lia.
  - cbn [push_zeros].
    destruct (push_spec a 0) as [Hal _]; [lia|].
    rewrite IH; lia.
Qed.

Lemma pushes_bound filterSize :
  0 <= Z.of_nat (pushes filterSize) <= MAX_BLOOM_FILTER_SIZE * 8.
Proof.
  unfold pushes. change (MAX_BLOOM_FILTER_SIZE * 8) with 288000.
  destruct filterSize as [z|[|]|].
  - destruct (Z.gtb_spec z 288000).
    + rewrite Z2Nat.id; lia.
    + destruct (Z.le_gt_cases 0 z).
      * rewrite Z2Nat.id by lia. lia.
      * replace (Z.to_nat z) with 0%nat by lia. lia.
  - change (Z.of_nat 0) with 0. lia.
  - rewrite Z2Nat.id; lia.
  - change (Z.of_nat 0) with 0. lia.
Qed.

Lemma create_vData_alen elements falsePositiveRate nTweak nFlags this :
  create elements falsePositiveRate nTweak nFlags = Ok this ->
  exists filterSize, alen (vData this) = Z.of_nat (pushes filterSize).
Proof.
  unfold create, new_Filter.
  match goal with |- context [pushes ?s] => set (filterSize := s) end.
  destruct (negb _); [discriminate|].
  intros [= <-]. exists filterSize. cbn [vData].
  pose proof (pushes_bound filterSize) as Hb.
  change (MAX_BLOOM_FILTER_SIZE * 8) with 288000 in Hb.
  rewrite push_zeros_alen; simpl; lia.
Qed.

(** The cap the code enforces: 288000 bytes, eight times
    [MAX_BLOOM_FILTER_SIZE]. *)
Lemma create_vData_alen_le elements falsePositiveRate nTweak nFlags this :
  create elements falsePositiveRate nTweak nFlags = Ok this ->
  0 <= alen (vData this) <= MAX_BLOOM_FILTER_SIZE * 8.
Proof.
  intros H. apply create_vData_alen in H as [filterSize ->].
  apply pushes_bound.
Qed.

Section Create.

Local Open Scope R_scope.

Lemma ddiv_8 x : ddiv (Fin x) (Fin 8) = Fin (x / 8).
Proof. unfold ddiv. rewrite Rzero_false by lra. reflexivity. Qed.

(** With no element and a rate between 0 and 1 the bit array is empty and
    the hash-function count is [0 / 0], NaN, which the constructor takes
    for a missing field. *)
Lemma create_zero_elements p nTweak nFlags :
  0 < p < 1 ->
  create (Fin 0) (Fin p) nTweak nFlags = Throw TypeError_nHashFuncs.
Proof.
  intros Hp. unfold create.
  rewrite size_finite, ddiv_8 by lra.
  replace (-1 / LN2SQUARED * 0 * ln p / 8) with (IZR 0) by (unfold Rdiv; ring).
  cbn [Math_floor]. rewrite ZfloorZ.
  change (pushes (IFin 0)) with 0%nat. cbn [push_zeros empty_array alen].
  change (0 * 8)%Z with 0%Z.
  unfold ddiv. rewrite Rzero_true. reflexivity.
Qed.

(** With a negative element count the size is negative, no byte is
    pushed, and the count [floor(0 / n * LN2) = 0] is raised to 1. *)
Lemma create_negative_elements n p nTweak nFlags :
  n < 0 -> 0 < p < 1 ->
  create (Fin n) (Fin p) nTweak nFlags
  = Ok {| vData := empty_array; nHashFuncs := 1;
          nTweak := number (js_or_else nTweak (Num 0));
          nFlags := number (js_or_else nFlags (Num BLOOM_UPDATE_NONE)) |}.
Proof.
  intros Hn Hp. unfold create.
  rewrite size_finite, ddiv_8 by lra.
  pose proof LN2SQUARED_bounds as HL. pose proof (ln_negative p Hp) as Hln.
  set (size := -1 / LN2SQUARED * n * ln p).
  assert (size < 0) as Hsize.
  { unfold size.
    assert (0 < -1 / LN2SQUARED * n).
    { unfold Rdiv. assert (0 < / LN2SQUARED) by (apply Rinv_0_lt_compat; lra).
      nra. }
    nra. }
  cbn [Math_floor].
  assert (Zfloor (size / 8) < 0)%Z as Hfloor.
  { pose proof (Zfloor_bound (size / 8)) as [Hlb _].
    apply lt_IZR. lra. }
  assert (pushes (IFin (Zfloor (size / 8))) = 0%nat) as ->.
  { unfold pushes.
    destruct (Z.gtb_spec (Zfloor (size / 8)) (MAX_BLOOM_FILTER_SIZE * 8)).
    - change (MAX_BLOOM_FILTER_SIZE * 8)%Z with 288000%Z in *. lia.
    - lia. }
  cbn [push_zeros empty_array alen]. change (0 * 8)%Z with 0%Z.
  unfold ddiv. rewrite Rzero_false by lra. cbn [dmul Math_floor].
  replace (0 / n * LN2) with (IZR 0) by (unfold Rdiv; ring).
  rewrite ZfloorZ. reflexivity.
Qed.

(** C5 (amended).  [create] validates no element count.  For a rate
    between 0 and 1: with [elementCount = 0] it fails, in the constructor,
    with the TypeError of a missing hash-function count; with a negative
    [elementCount] it fails not, and returns a filter with an empty bit
    array and one hash function. *)
Theorem create_nonpositive_elements (p : R) (nTweak nFlags : jsval) :
  0 < p < 1 ->
  create (Fin 0) (Fin p) nTweak nFlags = Throw TypeError_nHashFuncs
  /\ forall n : R, n < 0 ->
       create (Fin n) (Fin p) nTweak nFlags
       = Ok {| vData := empty_array; nHashFuncs := 1;
               nTweak := number (js_or_else nTweak (Num 0));
               nFlags := number (js_or_else nFlags (Num BLOOM_UPDATE_NONE)) |}.
Proof.
  intros Hp. split.
  - apply create_zero_elements, Hp.
  - intros n Hn. apply create_negative_elements; assumption.
Qed.

Lemma create_nonpositive_elements_witness :
  0 < / 2 < 1
  /\ create (Fin 0) (Fin (/ 2)) Undefined Undefined = Throw TypeError_nHashFuncs
  /\ create (Fin (-1)) (Fin (/ 2)) Undefined Undefined
     = Ok {| vData := empty_array; nHashFuncs := 1; nTweak := 0; nFlags := 0 |}.
Proof.
  assert (0 < / 2 < 1) as Hp by lra.
  split; [exact Hp|].
  destruct (create_nonpositive_elements (/ 2) Undefined Undefined Hp)
    as [Hzero Hneg].
  split; [exact Hzero|].
  apply (Hneg (-1)). lra.
Defined.

(** C5 (as stated) fails: [Filter.create(-1, 0.5)] throws nothing, it
    returns a filter. *)
Lemma create_negative_elements_returns :
  create (Fin (-1)) (Fin (/ 2)) Undefined Undefined
  = Ok {| vData := empty_array; nHashFuncs := 1; nTweak := 0; nFlags := 0 |}.
Proof. apply create_negative_elements; lra. Qed.

End Create.

Section CreateLarge.

Local Open Scope R_scope.

Lemma ln_million : 3 < ln 1000000.
Proof.
  rewrite <- (ln_exp 3). apply ln_increasing; [apply exp_pos|].
  replace 3 with (1 + 1 + 1) by ring. rewrite !exp_plus.
  pose proof exp_le_3 as H3. pose proof (exp_pos 1) as H0.
  assert (exp 1 * exp 1 <= 9) by nra.
  assert (exp 1 * exp 1 * exp 1 <= 27) by nra.
  lra.
Qed.

Lemma clamp_nHashFuncs_finite z :
  exists h, clamp_nHashFuncs (IFin z) = Num h
            /\ (MIN_HASH_FUNCS <= h <= MAX_HASH_FUNCS)%Z.
Proof.
  unfold clamp_nHashFuncs, MIN_HASH_FUNCS, MAX_HASH_FUNCS.
  eexists. split; [reflexivity|].
  destruct (Z.gtb_spec z 50); [|destruct (Z.ltb_spec z 1)]; simpl; lia.
Qed.

(** C2.  [Filter.create(1000000, 0.000001)] returns a filter of 288000
    bytes: the size in bytes is compared with
    [MAX_BLOOM_FILTER_SIZE * 8], the bound in bits, so the cap is eight
    times the 36000 bytes of [MAX_BLOOM_FILTER_SIZE]. *)
Theorem create_exceeds_MAX_BLOOM_FILTER_SIZE :
  exists this,
    create (Fin 1000000) (Fin (/ 1000000)) Undefined Undefined = Ok this
    /\ alen (vData this) = 288000%Z
    /\ (MAX_BLOOM_FILTER_SIZE < alen (vData this))%Z.
Proof.
  unfold create.
  rewrite size_finite, ddiv_8 by lra.
  set (size := -1 / LN2SQUARED * 1000000 * ln (/ 1000000)).
  assert (3000000 < size) as Hsize.
  { unfold size. rewrite ln_Rinv by lra.
    pose proof ln_million. pose proof LN2SQUARED_bounds as HL.
    assert (1 < / LN2SQUARED).
    { rewrite <- Rinv_1. apply Rinv_0_lt_contravar; lra. }
    unfold Rdiv. nra. }
  cbn [Math_floor].
  assert (288001 <= Zfloor (size / 8))%Z as Hfloor.
  { apply Zfloor_lub. lra. }
  assert (pushes (IFin (Zfloor (size / 8))) = Z.to_nat 288000) as ->.
  { unfold pushes. change (MAX_BLOOM_FILTER_SIZE * 8)%Z with 288000%Z.
    destruct (Z.gtb_spec (Zfloor (size / 8)) 288000); [reflexivity | lia]. }
  assert (alen (push_zeros (Z.to_nat 288000) empty_array) = 288000%Z) as Hlen.
  { rewrite push_zeros_alen; cbn [alen empty_array]; lia. }
  set (v := push_zeros (Z.to_nat 288000) empty_array) in *.
  rewrite Hlen.
  unfold ddiv. rewrite Rzero_false by lra. cbn [dmul Math_floor].
  destruct (clamp_nHashFuncs_finite
              (Zfloor (IZR (288000 * 8) / 1000000 * LN2))) as (h & -> & Hh).
  unfold MIN_HASH_FUNCS in Hh.
  unfold new_Filter. cbn [arg_vData arg_nHashFuncs arg_nTweak arg_nFlags truthy].
  destruct (Z.eqb_spec h 0); [lia|]. cbn [negb].
  eexists. split; [reflexivity|]. cbn [vData]. rewrite Hlen.
  split; [reflexivity|]. unfold MAX_BLOOM_FILTER_SIZE. lia.
Qed.

End CreateLarge.

(** ** Relevance matching *)

Lemma empty_filter_law_witness :
  contains (clear test_filter) test_a = false
  /\ isRelevantAndUpdate empty_filter (Some test_tx) = (Ok false, empty_filter).
Proof.
  split.
  - apply (proj1 empty_filter_law).
  - apply (proj2 empty_filter_law). reflexivity.
Defined.

(** Every iteration of the loop over the chunks of input [i] reads
    [chunks[i]]: the loop throws when the script has chunks but none at
    [i], and tests that one chunk otherwise. *)
Lemma chunks_loop_reads_one this chunks i n :
  chunks_loop this chunks i (S n) =
  match chunks !! i with
  | None => Throw TypeError_undefined_property
  | Some chunk =>
      Ok (match chunk_buf chunk with
          | Some buffer => negb (Nat.eqb (length buffer) 0) && contains this buffer
          | None => false
          end)
  end.
Proof.
  induction n as [|n IH].
  - simpl. destruct (chunks !! i) as [chunk|]; [|reflexivity].
    destruct (chunk_buf chunk) as [buffer|]; [|reflexivity].
    destruct (_ && _); reflexivity.
  - change (chunks_loop this chunks i (S (S n))) with
      (match chunks !! i with
       | None => Throw TypeError_undefined_property
       | Some chunk =>
           match chunk_buf chunk with
           | Some buffer =>
               if negb (Nat.eqb (length buffer) 0) && contains this buffer
               then Ok true
               else chunks_loop this chunks i (S n)
           | None => chunks_loop this chunks i (S n)
           end
       end).
    rewrite IH.
    destruct (chunks !! i) as [chunk|]; [|reflexivity].
    destruct (chunk_buf chunk) as [buffer|]; [|reflexivity].
    destruct (_ && _); reflexivity.
Qed.

(** The relevance tests of [test/index.js] that run hold of the
    embedding: a filter holding the transaction hash in either byte
    order, the signature, an output address or the spent outpoint
    matches; one holding a random hash or address does not. *)
Lemma test_relevance :
  let relevant data :=
    fst (isRelevantAndUpdate (insert relevance_filter data) (Some test_tx)) in
  map relevant
    [ ParseHex "b4749f017444b051c44dfd2720e88f314ff94f3dd6d56d40ef65854fcd7fff6b";
      ParseHex "6bff7fcd4f8565ef406dd5d63d4ff94f318fe82027fd4dc451b04474019f74b4";
      test_signature;
      ParseHex "04943fdd508053c75000106d3bc6e2754dbcff19";
      ParseHex "a266436d2965547608b9e15d9032a7b9d64fa431";
      ParseHex "90c122d70786e899529d71dbeba91ba216982fb6ba58f3bdaab65e73b7e9260b";
      ParseHex "00000009e784f32f62ef849763d4f45b98e07ba658647343b915ff832b110436";
      ParseHex "0000006d2965547608b9e15d9032a7b9d64fa431" ]
  = [Ok true; Ok true; Ok true; Ok true; Ok true; Ok true; Ok false; Ok false].
Proof. vm_compute. reflexivity. Qed.

(** C3.  The input phase does not examine every chunk.  The filter holds
    the public key, which is chunk 1 of the unlocking script of input 0;
    the loop reads [chunks[0]], the signature, twice, and the transaction
    is reported not relevant.  With a second input whose script has one
    chunk, the loop reads [chunks[1]] of that script, which is
    [undefined], and the call throws. *)
Theorem input_phase_skips_chunks :
  let this := insert relevance_filter test_pubkey in
  chunks (input_script test_input) !! 1%nat = Some (mkChunk (Some test_pubkey))
  /\ contains this test_pubkey = true
  /\ isRelevantAndUpdate this (Some test_tx) = (Ok false, this)
  /\ isRelevantAndUpdate this (Some test_tx_two_inputs)
     = (Throw TypeError_undefined_property, this).
Proof.
  cbv zeta.
  split; [vm_compute; reflexivity|]. split; [vm_compute; reflexivity|].
  split; vm_compute; reflexivity.
Qed.

(** * Further properties of the code *)

(** ** [insert] as a sequence of bit writes *)

Lemma insert_step_set_bit data this i :
  insert_step data this i
  = set_vData this (set_bit (vData this) (hash this i data)).
Proof. apply insert_step_eq. Qed.

Lemma fold_insert_step_set_bit data l : forall this,
  0 < alen (vData this) ->
  fold_left (insert_step data) l this
  = set_vData this
      (fold_left set_bit (map (fun i => hash this i data) l) (vData this)).
Proof.
  induction l as [|i l IH]; intros this Hlen; simpl.
  - destruct this; reflexivity.
  - pose proof (insert_step_alen data this i Hlen) as Ha.
    rewrite IH by lia.
    rewrite (map_ext (fun j => hash (insert_step data this i) j data)
                     (fun j => hash this j data))
      by (intros j; apply hash_ext; [exact Ha | reflexivity]).
    rewrite insert_step_set_bit. reflexivity.
Qed.

Lemma insert_set_bits this data :
  0 < alen (vData this) ->
  insert this data
  = set_vData this (fold_left set_bit (indices this data) (vData this)).
Proof.
  intros Hlen. unfold insert, indices.
  exact (fold_insert_step_set_bit data (seqZ 0 (nHashFuncs this)) this Hlen).
Qed.

Lemma wrap32_congr a b : a mod 2 ^ 32 = b mod 2 ^ 32 -> wrap32 a = wrap32 b.
Proof.
  intros H. unfold wrap32.
  rewrite <- (Zplus_mod_idemp_l a), <- (Zplus_mod_idemp_l b), H. reflexivity.
Qed.

Lemma lor_mod_pow2 a b n :
  0 <= n -> Z.lor a b mod 2 ^ n = Z.lor (a mod 2 ^ n) (b mod 2 ^ n).
Proof.
  intros Hn. apply Z.bits_inj'. intros k Hk.
  rewrite Z.lor_spec, !Z.testbit_mod_pow2, Z.lor_spec by lia.
  destruct (k <? n); reflexivity.
Qed.

Lemma wrap32_lor_l u p : wrap32 (Z.lor (wrap32 u) p) = wrap32 (Z.lor u p).
Proof.
  apply wrap32_congr.
  rewrite !(lor_mod_pow2 _ _ 32), wrap32_mod by lia. reflexivity.
Qed.

Ltac case_bounds :=
  repeat match goal with
         | |- context [?x <=? ?y] => destruct (Z.leb_spec x y); cbn [andb]
         | |- context [?x <? ?y] => destruct (Z.ltb_spec x y); cbn [andb]
         end;
  cbn [andb] in *; try reflexivity; try lia.

Lemma aset_aset_eq a k v w : aset (aset a k v) k w = aset a k w.
Proof.
  unfold aset. cbn [items alen]. f_equal.
  - apply insert_insert_eq.
  - case_bounds.
Qed.

Lemma aset_aset_ne a k1 k2 v w :
  k1 <> k2 -> aset (aset a k1 v) k2 w = aset (aset a k2 w) k1 v.
Proof.
  intros Hne. unfold aset. cbn [items alen]. f_equal.
  - apply insert_insert_ne. congruence.
  - case_bounds.
Qed.

Lemma aget_aset_eq a k v : aget (aset a k v) k = Num v.
Proof. unfold aget, aset. simpl. rewrite lookup_insert_eq. reflexivity. Qed.

Lemma aget_aset_ne a k j v : k <> j -> aget (aset a k v) j = aget a j.
Proof.
  intros Hne. unfold aget, aset. simpl.
  rewrite lookup_insert_ne by exact Hne. reflexivity.
Qed.

(** Two bit writes commute. *)
Lemma set_bit_comm a i j :
  set_bit (set_bit a i) j = set_bit (set_bit a j) i.
Proof.
  unfold set_bit.
  destruct (decide (key_of i = key_of j)) as [Heq|Hne].
  - rewrite Heq, !aget_aset_eq, !aset_aset_eq. f_equal.
    unfold js_or. rewrite !ToInt32_pow2 by apply and7_range.
    cbn [ToInt32]. rewrite wrap32_idem, !wrap32_lor_l.
    rewrite <- !Z.lor_assoc, (Z.lor_comm (2 ^ bit_of i)). reflexivity.
  - rewrite (aget_aset_ne _ (key_of i) (key_of j)) by exact Hne.
    rewrite (aget_aset_ne _ (key_of j) (key_of i)) by congruence.
    apply aset_aset_ne. exact Hne.
Qed.

Lemma fold_set_bit_comm l : forall a i,
  fold_left set_bit l (set_bit a i) = set_bit (fold_left set_bit l a) i.
Proof.
  induction l as [|j l IH]; intros a i; simpl; [reflexivity|].
  rewrite set_bit_comm. apply IH.
Qed.

Lemma fold_set_bit_app_comm l1 l2 a :
  fold_left set_bit (l1 ++ l2) a = fold_left set_bit (l2 ++ l1) a.
Proof.
  revert a. induction l1 as [|i l1 IH]; intros a.
  - rewrite app_nil_r. reflexivity.
  - simpl. rewrite IH, !fold_left_app. simpl.
    rewrite fold_set_bit_comm, fold_set_bit_comm. reflexivity.
Qed.

Lemma indices_ext this that data :
  alen (vData that) = alen (vData this) -> nTweak that = nTweak this ->
  nHashFuncs that = nHashFuncs this ->
  indices that data = indices this data.
Proof.
  intros Ha Ht Hn. unfold indices. rewrite Hn.
  apply map_ext. intros i. apply hash_ext; assumption.
Qed.

(** Inserting two buffers into a non-empty filter gives the same filter
    in either order. *)
Theorem insert_commutes (this : Filter) (x y : Buffer) :
  0 < alen (vData this) ->
  insert (insert this x) y = insert (insert this y) x.
Proof.
  intros Hlen.
  destruct (insert_fields x this Hlen) as (Hax & Hnx & Htx & _).
  destruct (insert_fields y this Hlen) as (Hay & Hny & Hty & _).
  rewrite (insert_set_bits (insert this x) y) by lia.
  rewrite (insert_set_bits (insert this y) x) by lia.
  rewrite (indices_ext this (insert this x) y) by assumption.
  rewrite (indices_ext this (insert this y) x) by assumption.
  rewrite !(insert_set_bits this) by exact Hlen.
  unfold set_vData. cbn [vData nHashFuncs nTweak nFlags].
  rewrite <- !fold_left_app, fold_set_bit_app_comm. reflexivity.
Qed.

Lemma insert_commutes_witness :
  0 < alen (vData test_filter)
  /\ insert (insert test_filter test_a) test_c
     = insert (insert test_filter test_c) test_a.
Proof.
  split; [reflexivity|].
  apply (insert_commutes test_filter test_a test_c). reflexivity.
Defined.

Lemma insert_twice_nonempty_witness :
  0 < alen (vData test_filter)
  /\ insert (insert test_filter test_a) test_a = insert test_filter test_a.
Proof.
  split; [reflexivity|].
  apply (insert_twice_nonempty test_a test_filter). reflexivity.
Defined.

(** [insert] leaves the length of a non-empty bit array and the three
    numbers of the filter as they are: it writes inside the array
    only. *)
Theorem insert_keeps_shape (this : Filter) (data : Buffer) :
  0 < alen (vData this) ->
  alen (vData (insert this data)) = alen (vData this)
  /\ nHashFuncs (insert this data) = nHashFuncs this
  /\ nTweak (insert this data) = nTweak this
  /\ nFlags (insert this data) = nFlags this.
Proof. apply insert_fields. Qed.

Lemma insert_keeps_shape_witness :
  0 < alen (vData test_filter)
  /\ alen (vData (insert test_filter test_a)) = alen (vData test_filter)
  /\ nHashFuncs (insert test_filter test_a) = nHashFuncs test_filter
  /\ nTweak (insert test_filter test_a) = nTweak test_filter
  /\ nFlags (insert test_filter test_a) = nFlags test_filter.
Proof.
  split; [reflexivity|].
  apply (insert_keeps_shape test_filter test_a). reflexivity.
Defined.

(** ** [insert] never clears a bit *)

Lemma set_bit_keeps a i k b :
  0 <= b <= 7 ->
  Z.testbit (ToInt32 (aget a k)) b = true ->
  Z.testbit (ToInt32 (aget (set_bit a i) k)) b = true.
Proof.
  intros Hb Hbit. unfold set_bit.
  destruct (decide (key_of i = k)) as [<-|Hne].
  - rewrite aget_aset_eq. cbn [ToInt32].
    rewrite wrap32_testbit by lia.
    rewrite or_pow2_testbit by (try apply and7_range; lia).
    rewrite Hbit. reflexivity.
  - rewrite aget_aset_ne by exact Hne. exact Hbit.
Qed.

Lemma fold_set_bit_keeps l k b : forall a,
  0 <= b <= 7 ->
  Z.testbit (ToInt32 (aget a k)) b = true ->
  Z.testbit (ToInt32 (aget (fold_left set_bit l a) k)) b = true.
Proof.
  induction l as [|i l IH]; intros a Hb Hbit; simpl; [exact Hbit|].
  apply IH; [exact Hb|]. apply set_bit_keeps; assumption.
Qed.

Lemma insert_keeps_bit this data index :
  0 < alen (vData this) ->
  bit_is_set this index = true ->
  bit_is_set (insert this data) index = true.
Proof.
  intros Hlen. rewrite !bit_is_set_eq, insert_set_bits by exact Hlen.
  cbn [vData set_vData]. apply fold_set_bit_keeps, and7_range.
Qed.

Lemma forallb_map_compose {A B} (f : A -> B) (p : B -> bool) (l : list A) :
  forallb p (map f l) = forallb (fun x => p (f x)) l.
Proof. induction l as [|x l IH]; simpl; [|rewrite IH]; reflexivity. Qed.

Lemma contains_indices this data :
  contains this data
  = negb (alen (vData this) =? 0)
    && forallb (bit_is_set this) (indices this data).
Proof.
  unfold contains, indices. rewrite forallb_map_compose.
  destruct (alen (vData this) =? 0); reflexivity.
Qed.

(** Whatever a non-empty filter contains, it contains after an
    [insert] of any buffer. *)
Theorem insert_keeps_members (this : Filter) (x y : Buffer) :
  0 < alen (vData this) ->
  contains this y = true -> contains (insert this x) y = true.
Proof.
  intros Hlen. rewrite !contains_indices.
  destruct (insert_fields x this Hlen) as (Ha & Hn & Ht & _).
  rewrite (indices_ext this (insert this x) y), Ha by assumption.
  intros H. apply andb_true_iff in H as [H0 Hall].
  apply andb_true_iff. split; [exact H0|].
  rewrite forallb_forall in *. intros index Hin.
  apply insert_keeps_bit; auto.
Qed.

Lemma insert_keeps_members_witness :
  0 < alen (vData (insert test_filter test_a))
  /\ contains (insert test_filter test_a) test_a = true
  /\ contains (insert (insert test_filter test_a) test_c) test_a = true.
Proof.
  assert (contains (insert test_filter test_a) test_a = true) as H
    by (vm_compute; reflexivity).
  assert (0 < alen (vData (insert test_filter test_a))) as Hlen
    by (vm_compute; reflexivity).
  split; [exact Hlen|]. split; [exact H|].
  apply (insert_keeps_members (insert test_filter test_a) test_c test_a);
    [exact Hlen | exact H].
Defined.

(** ** A byte array stays a byte array *)











(** ** Decoding: truncated buffers, trailing bytes, re-encoding *)

Lemma readUInt8_nil (buffer : list byte) p :
  drop p buffer = [] ->
  readUInt8 {| buf := buffer; pos := p |} = Throw RangeError_offset.
Proof.
  intros H. apply drop_nil_inv in H. unfold readUInt8. simpl.
  rewrite lookup_ge_None_2 by exact H. reflexivity.
Qed.

Lemma readUInt32LE_short (buffer : list byte) p :
  (length (drop p buffer) < 4)%nat ->
  readUInt32LE {| buf := buffer; pos := p |} = Throw RangeError_offset.
Proof.
  intros H. unfold readUInt32LE. simpl.
  destruct (drop p buffer) as [|a [|b [|c [|d r]]]]; simpl in *;
    try reflexivity; lia.
Qed.

Lemma read_vData_short (buffer : list byte) n : forall a p,
  (length (drop p buffer) < n)%nat ->
  read_vData n a {| buf := buffer; pos := p |} = Throw RangeError_offset.
Proof.
  induction n as [|n IH]; intros a p H; [lia|].
  cbn [read_vData].
  destruct (drop p buffer) as [|b rest] eqn:E.
  - rewrite readUInt8_nil by exact E. reflexivity.
  - destruct (readUInt8_drop buffer p b rest E) as [-> Hrest]. bind_step.
    apply IH. rewrite Hrest. simpl in H. lia.
Qed.

(** A buffer either has the layout of an encoding (followed by anything)
    or is too short for the length it declares, and then the reader
    throws. *)
Lemma transformBufferReader_cases (buffer : list byte) :
  (exists data h0 h1 h2 h3 t0 t1 t2 t3 fl rest,
     buffer = byte_of_Z (Z.of_nat (length data)) :: data
              ++ [h0; h1; h2; h3] ++ [t0; t1; t2; t3] ++ fl :: rest
     /\ (length data <= 255)%nat)
  \/ (_transformBufferReader {| buf := buffer; pos := 0 |}
      = Throw RangeError_offset
      /\ (length buffer < 10 + declared_length buffer)%nat).
Proof.
  destruct buffer as [|b rest0]; [right; split; [reflexivity | simpl; lia]|].
  cbn [declared_length]. set (n := Z.to_nat (byte_to_Z b)).
  pose proof (byte_to_Z_range b) as Hb.
  assert (byte_of_Z (Z.of_nat n) = b) as Hbn
    by (unfold n; rewrite Z2Nat.id by lia; apply byte_of_to_Z).
  destruct (le_lt_dec (n + 9) (length rest0)) as [Hlong|Hshort].
  - left. exists (take n rest0).
    assert (length (take n rest0) = n) as Hn by (apply length_take_le; lia).
    assert (9 <= length (drop n rest0))%nat as Hr
      by (rewrite length_drop; lia).
    destruct (drop n rest0)
      as [|h0 [|h1 [|h2 [|h3 [|t0 [|t1 [|t2 [|t3 [|fl rest]]]]]]]]] eqn:E;
      simpl in Hr; try lia.
    exists h0, h1, h2, h3, t0, t1, t2, t3, fl, rest.
    rewrite Hn, Hbn. split; [|unfold n; lia].
    transitivity (b :: take n rest0 ++ drop n rest0);
      [rewrite take_drop | rewrite E]; reflexivity.
  - right. split; [|simpl; lia].
    unfold _transformBufferReader.
    destruct (readUInt8_drop (b :: rest0) 0 b rest0 eq_refl) as [-> Hd1].
    bind_step. fold n.
    destruct (le_lt_dec n (length rest0)) as [Hdata|Hdata].
    + assert (length (take n rest0) = n) as Hn by (apply length_take_le; lia).
      assert (length (drop n rest0) < 9)%nat as Hr
        by (rewrite length_drop; lia).
      assert (drop 1 (b :: rest0) = take n rest0 ++ drop n rest0) as Hd1'
        by (rewrite take_drop; exact Hd1).
      destruct (read_vData_drop (b :: rest0) (take n rest0) empty_array 1 _ Hd1')
        as [Hread Hd2].
      rewrite Hn in Hread, Hd2. rewrite Hread.
      bind_step.
      destruct (drop n rest0) as [|h0 [|h1 [|h2 [|h3 r1]]]];
        try (rewrite readUInt32LE_short by (rewrite Hd2; simpl; lia);
             reflexivity).
      destruct (readUInt32LE_drop _ _ _ _ _ _ _ Hd2) as [-> Hd3]. bind_step.
      destruct r1 as [|t0 [|t1 [|t2 [|t3 r2]]]];
        try (rewrite readUInt32LE_short by (rewrite Hd3; simpl; lia);
             reflexivity).
      destruct (readUInt32LE_drop _ _ _ _ _ _ _ Hd3) as [-> Hd4]. bind_step.
      destruct r2 as [|fl r3]; [|simpl in Hr; lia].
      rewrite readUInt8_nil by exact Hd4. reflexivity.
    + rewrite read_vData_short by (rewrite Hd1; lia). reflexivity.
Qed.

Lemma fromBuffer_layout (data : list byte)
    (h0 h1 h2 h3 t0 t1 t2 t3 fl : byte) (rest : list byte) :
  (length data <= 255)%nat ->
  fromBuffer (byte_of_Z (Z.of_nat (length data)) :: data
              ++ [h0; h1; h2; h3] ++ [t0; t1; t2; t3] ++ fl :: rest)
  = if uint32le_value h0 h1 h2 h3 =? 0 then Throw TypeError_nHashFuncs
    else Ok {| vData := array_of_list (map byte_to_Z data);
               nHashFuncs := uint32le_value h0 h1 h2 h3;
               nTweak := uint32le_value t0 t1 t2 t3;
               nFlags := byte_to_Z fl |}.
Proof.
  intros Hlen. unfold fromBuffer.
  rewrite transformBufferReader_layout, bind_Ok by exact Hlen.
  unfold new_Filter.
  cbn [arg_vData arg_nHashFuncs arg_nTweak arg_nFlags truthy].
  destruct (uint32le_value h0 h1 h2 h3 =? 0); [reflexivity|].
  cbn [negb number]. f_equal. f_equal.
  - unfold js_or_else. cbn [truthy].
    destruct (Z.eqb_spec (uint32le_value t0 t1 t2 t3) 0) as [->|];
      reflexivity.
  - unfold js_or_else. cbn [truthy].
    destruct (Z.eqb_spec (byte_to_Z fl) 0) as [->|]; reflexivity.
Qed.

(** A buffer shorter than the ten bytes of the fixed fields plus the
    length its first byte declares is rejected with the RangeError of the
    reader; the empty buffer is. *)
Theorem fromBuffer_truncated (buffer : Buffer) :
  (length buffer < 10 + declared_length buffer)%nat ->
  fromBuffer buffer = Throw RangeError_offset.
Proof.
  intros Hshort.
  destruct (transformBufferReader_cases buffer)
    as [(data & h0 & h1 & h2 & h3 & t0 & t1 & t2 & t3 & fl & rest & -> & Hlen)
       | [Hthrow _]].
  - exfalso. cbn [declared_length] in Hshort.
    rewrite byte_to_of_Z_small, Nat2Z.id in Hshort by lia.
    simpl in Hshort. rewrite length_app in Hshort. simpl in Hshort. lia.
  - unfold fromBuffer. rewrite Hthrow. reflexivity.
Qed.

Lemma fromBuffer_truncated_witness :
  (length (ParseHex "03614e9b0500000000000000")
   < 10 + declared_length (ParseHex "03614e9b0500000000000000"))%nat
  /\ fromBuffer (ParseHex "03614e9b0500000000000000") = Throw RangeError_offset.
Proof.
  assert (length (ParseHex "03614e9b0500000000000000")
          < 10 + declared_length (ParseHex "03614e9b0500000000000000"))%nat
    as H by (vm_compute; lia).
  split; [exact H|].
  apply (fromBuffer_truncated (ParseHex "03614e9b0500000000000000")), H.
Defined.

(** What [fromBuffer] returns depends on the encoding at the front of
    the buffer only: bytes after it are ignored. *)
Theorem fromBuffer_ignores_trailing (buffer rest : Buffer) (this : Filter) :
  fromBuffer buffer = Ok this -> fromBuffer (buffer ++ rest) = Ok this.
Proof.
  intros Hok.
  destruct (transformBufferReader_cases buffer)
    as [(data & h0 & h1 & h2 & h3 & t0 & t1 & t2 & t3 & fl & r & -> & Hlen)
       | [Hthrow _]].
  - rewrite fromBuffer_layout in Hok by exact Hlen.
    replace ((byte_of_Z (Z.of_nat (length data)) :: data
              ++ [h0; h1; h2; h3] ++ [t0; t1; t2; t3] ++ fl :: r) ++ rest)
      with (byte_of_Z (Z.of_nat (length data)) :: data
            ++ [h0; h1; h2; h3] ++ [t0; t1; t2; t3] ++ fl :: (r ++ rest)).
    + rewrite fromBuffer_layout by exact Hlen. exact Hok.
    + simpl. rewrite <- !app_assoc. reflexivity.
  - unfold fromBuffer in Hok. rewrite Hthrow in Hok. discriminate.
Qed.

Lemma fromBuffer_ignores_trailing_witness :
  fromBuffer (ParseHex "03614e9b050000000000000001")
  = Ok (insert (insert (insert test_filter test_a) test_c) test_d)
  /\ fromBuffer (ParseHex "03614e9b050000000000000001" ++ ParseHex "ffff")
     = Ok (insert (insert (insert test_filter test_a) test_c) test_d).
Proof.
  assert (fromBuffer (ParseHex "03614e9b050000000000000001")
          = Ok (insert (insert (insert test_filter test_a) test_c) test_d))
    as H by (vm_compute; reflexivity).
  split; [exact H|].
  apply (fromBuffer_ignores_trailing _ (ParseHex "ffff") _ H).
Defined.

Lemma byte_of_Z_mod z : byte_of_Z z = byte_of_Z (z mod 256).
Proof. unfold byte_of_Z. rewrite Z.mod_mod by lia. reflexivity. Qed.

Lemma byte_of_Z_low h q : byte_of_Z (byte_to_Z h + 256 * q) = h.
Proof.
  pose proof (byte_to_Z_range h).
  rewrite byte_of_Z_mod.
  replace (byte_to_Z h + 256 * q) with (byte_to_Z h + q * 256) by lia.
  rewrite Z.mod_add, Z.mod_small by lia.
  apply byte_of_to_Z.
Qed.

Lemma div_256_low h q : (byte_to_Z h + 256 * q) / 256 = q.
Proof.
  pose proof (byte_to_Z_range h).
  replace (byte_to_Z h + 256 * q) with (byte_to_Z h + q * 256) by lia.
  rewrite Z.div_add, Z.div_small by lia. lia.
Qed.

Lemma uint32le_value_range h0 h1 h2 h3 :
  0 <= uint32le_value h0 h1 h2 h3 <= 0xffffffff.
Proof.
  unfold uint32le_value.
  pose proof (byte_to_Z_range h0). pose proof (byte_to_Z_range h1).
  pose proof (byte_to_Z_range h2). pose proof (byte_to_Z_range h3). lia.
Qed.

(** Encoding the number four bytes decode to gives the four bytes. *)
Lemma uint32le_encode h0 h1 h2 h3 :
  uint32le (uint32le_value h0 h1 h2 h3) = [h0; h1; h2; h3].
Proof.
  unfold uint32le, uint32le_value.
  replace (byte_to_Z h0 + 2 ^ 8 * byte_to_Z h1 + 2 ^ 16 * byte_to_Z h2
           + 2 ^ 24 * byte_to_Z h3)
    with (byte_to_Z h0 + 256 * (byte_to_Z h1 + 256 * (byte_to_Z h2
          + 256 * (byte_to_Z h3 + 256 * 0)))) by lia.
  rewrite !Z.shiftr_div_pow2 by lia.
  change (2 ^ 8) with 256. change (2 ^ 16) with (256 * 256).
  change (2 ^ 24) with (256 * 256 * 256).
  rewrite <- !Z.div_div by lia.
  rewrite !div_256_low, !byte_of_Z_low. reflexivity.
Qed.

Lemma map_byte_of_to_Z (data : list byte) :
  map byte_of_Z (map byte_to_Z data) = data.
Proof.
  induction data as [|b data IH]; simpl; [|rewrite byte_of_to_Z, IH];
    reflexivity.
Qed.

(** Every filter [fromBuffer] returns can be encoded, and its encoding is
    the front of the buffer it was decoded from. *)
Theorem toBuffer_of_decoded (buffer : Buffer) (this : Filter) :
  fromBuffer buffer = Ok this ->
  exists encoded rest, toBuffer this = Ok encoded /\ buffer = encoded ++ rest.
Proof.
  intros Hok.
  destruct (transformBufferReader_cases buffer)
    as [(data & h0 & h1 & h2 & h3 & t0 & t1 & t2 & t3 & fl & r & -> & Hlen)
       | [Hthrow _]].
  - rewrite fromBuffer_layout in Hok by exact Hlen.
    destruct (Z.eqb_spec (uint32le_value h0 h1 h2 h3) 0) as [|Hne];
      [discriminate|].
    injection Hok as <-.
    exists (wire (map byte_to_Z data) (uint32le_value h0 h1 h2 h3)
                 (uint32le_value t0 t1 t2 t3) (byte_to_Z fl)), r.
    split.
    + apply toBuffer_wire.
      * apply Forall_map, Forall_forall. intros b _. apply byte_to_Z_range.
      * rewrite length_map. exact Hlen.
      * apply uint32le_value_range.
      * apply uint32le_value_range.
      * apply byte_to_Z_range.
    + unfold wire.
      rewrite length_map, map_byte_of_to_Z, !uint32le_encode, byte_of_to_Z.
      simpl. rewrite <- !app_assoc. reflexivity.
  - unfold fromBuffer in Hok. rewrite Hthrow in Hok. discriminate.
Qed.

Lemma toBuffer_of_decoded_witness :
  fromBuffer (ParseHex "03614e9b050000000000000001ffff")
  = Ok (insert (insert (insert test_filter test_a) test_c) test_d)
  /\ exists encoded rest,
       toBuffer (insert (insert (insert test_filter test_a) test_c) test_d)
       = Ok encoded
       /\ ParseHex "03614e9b050000000000000001ffff" = encoded ++ rest.
Proof.
  assert (fromBuffer (ParseHex "03614e9b050000000000000001ffff")
          = Ok (insert (insert (insert test_filter test_a) test_c) test_d))
    as H by (vm_compute; reflexivity).
  split; [exact H|].
  apply (toBuffer_of_decoded _ _ H).
Defined.

(** ** Encoding: when it succeeds *)

Lemma bind_Ok_inv {A B} (r : result A) (k : A -> result B) b :
  r ≫= k = Ok b -> exists a, r = Ok a /\ k a = Ok b.
Proof. destruct r as [a|e]; [eauto | discriminate]. Qed.






(** ** Objects *)

(** [fromObject] of what [toObject] gives is the filter itself, unless
    its hash-function count is 0, which the constructor refuses. *)
Theorem fromObject_toObject (this : Filter) :
  fromObject (toObject this)
  = if nHashFuncs this =? 0 then Throw TypeError_nHashFuncs else Ok this.
Proof.
  destruct this as [v h t fl]. unfold fromObject, toObject, new_Filter.
  cbn [arg_vData arg_nHashFuncs arg_nTweak arg_nFlags truthy vData
       nHashFuncs nTweak nFlags].
  destruct (h =? 0); [reflexivity|]. cbn [negb number]. f_equal. f_equal.
  - unfold js_or_else. cbn [truthy].
    destruct (Z.eqb_spec t 0) as [->|]; reflexivity.
  - unfold js_or_else. cbn [truthy].
    destruct (Z.eqb_spec fl 0) as [->|]; reflexivity.
Qed.

(** ** [toString] *)

Lemma hex_pair (x : byte) :
  match hex_digit (hex_char (byte_to_Z x / 16)),
        hex_digit (hex_char (byte_to_Z x mod 16)) with
  | Some h, Some l => byte_of_Z (16 * h + l)
  | Some h, None => byte_of_Z h
  | None, _ => x00
  end = x.
Proof. destruct x; vm_compute; reflexivity. Qed.

Lemma ParseHex_toHex (b : list byte) : ParseHex (toHex b) = b.
Proof.
  induction b as [|x b IH]; [reflexivity|].
  cbn [toHex ParseHex]. rewrite hex_pair, IH. reflexivity.
Qed.

(** The string [toString] returns parses, with [ParseHex], to the buffer
    [toBuffer] returns, and so decodes to what that buffer decodes to. *)
Theorem toString_ParseHex (this : Filter) (s : string) :
  toString this = Ok s ->
  toBuffer this = Ok (ParseHex s)
  /\ fromBuffer (ParseHex s) = roundtrip this.
Proof.
  unfold toString, roundtrip. intros H.
  apply bind_Ok_inv in H as (buffer & Hb & [= <-]).
  rewrite ParseHex_toHex, Hb. split; reflexivity.
Qed.

Lemma toString_ParseHex_witness :
  toString (insert (insert (insert test_filter test_a) test_c) test_d)
  = Ok "03614e9b050000000000000001"%string
  /\ toBuffer (insert (insert (insert test_filter test_a) test_c) test_d)
     = Ok (ParseHex "03614e9b050000000000000001").
Proof.
  assert (toString (insert (insert (insert test_filter test_a) test_c) test_d)
          = Ok "03614e9b050000000000000001"%string) as H
    by (vm_compute; reflexivity).
  split; [exact H|].
  apply (proj1 (toString_ParseHex _ _ H)).
Defined.


(** ** What [create] returns *)

Lemma clamp_nHashFuncs_cases n :
  clamp_nHashFuncs n = NaN
  \/ exists h, clamp_nHashFuncs n = Num h
               /\ MIN_HASH_FUNCS <= h <= MAX_HASH_FUNCS.
Proof.
  unfold MIN_HASH_FUNCS, MAX_HASH_FUNCS.
  destruct n as [z|[|]|]; simpl.
  - right. eexists. split; [reflexivity|].
    unfold MIN_HASH_FUNCS, MAX_HASH_FUNCS.
    destruct (Z.gtb_spec z 50); [|destruct (Z.ltb_spec z 1)]; simpl; lia.
  - right. exists 1. split; [reflexivity | lia].
  - right. exists 50. split; [reflexivity | lia].
  - left. reflexivity.
Qed.

Lemma create_nHashFuncs_range elements falsePositiveRate tweak flags this :
  create elements falsePositiveRate tweak flags = Ok this ->
  MIN_HASH_FUNCS <= nHashFuncs this <= MAX_HASH_FUNCS.
Proof.
  unfold create, new_Filter.
  cbn [arg_vData arg_nHashFuncs arg_nTweak arg_nFlags].
  match goal with |- context [clamp_nHashFuncs ?n] =>
    destruct (clamp_nHashFuncs_cases n) as [->|(h & -> & Hh)]
  end; [discriminate|].
  cbn [truthy]. destruct (h =? 0); [discriminate|].
  intros [= <-]. exact Hh.
Qed.

(** Whatever the arguments, a filter that [create] returns has between 1
    and 50 hash functions and a bit array of at most 288000
    elements. *)
Theorem create_returns_bounds (elements falsePositiveRate : double)
    (nTweak nFlags : jsval) (this : Filter) :
  create elements falsePositiveRate nTweak nFlags = Ok this ->
  MIN_HASH_FUNCS <= nHashFuncs this <= MAX_HASH_FUNCS
  /\ 0 <= alen (vData this) <= MAX_BLOOM_FILTER_SIZE * 8.
Proof.
  intros H. split; [exact (create_nHashFuncs_range _ _ _ _ _ H)|].
  exact (create_vData_alen_le _ _ _ _ _ H).
Qed.

Lemma push_zeros_blank n : forall a,
  (forall k, ToInt32 (aget a k) = 0) ->
  forall k, ToInt32 (aget (push_zeros n a) k) = 0.
Proof.
  induction n as [|n IH]; intros a Ha k; [apply Ha|].
  cbn [push_zeros]. apply IH. intros j. unfold push.
  destruct (decide (alen a = j)) as [<-|Hne].
  - rewrite aget_aset_eq. reflexivity.
  - rewrite aget_aset_ne by exact Hne. apply Ha.
Qed.

(** A filter fresh from [create] contains no buffer. *)
Theorem create_contains_nothing (elements falsePositiveRate : double)
    (nTweak nFlags : jsval) (this : Filter) (x : Buffer) :
  create elements falsePositiveRate nTweak nFlags = Ok this ->
  contains this x = false.
Proof.
  intros H.
  pose proof (create_nHashFuncs_range _ _ _ _ _ H) as Hh.
  unfold MIN_HASH_FUNCS in Hh.
  assert (forall k, ToInt32 (aget (vData this) k) = 0) as Hblank.
  { revert H. unfold create, new_Filter.
    cbn [arg_vData arg_nHashFuncs arg_nTweak arg_nFlags].
    destruct (negb _); [discriminate|]. intros [= <-]. cbn [vData].
    apply push_zeros_blank. intros k. reflexivity. }
  unfold contains. destruct (alen (vData this) =? 0); [reflexivity|].
  replace (nHashFuncs this) with (Z.succ (nHashFuncs this - 1)) by lia.
  rewrite seqZ_cons by lia. cbn [forallb].
  rewrite bit_is_set_eq, Hblank, Z.bits_0. reflexivity.
Qed.

Section CreateSucceeds.

Local Open Scope R_scope.

Lemma create_positive (n p : R) (tweak flags : jsval) :
  0 < n -> 0 < p < 1 ->
  exists this,
    create (Fin n) (Fin p) tweak flags = Ok this
    /\ nTweak this = number (js_or_else tweak (Num 0))
    /\ nFlags this = number (js_or_else flags (Num BLOOM_UPDATE_NONE)).
Proof.
  intros Hn Hp. unfold create.
  rewrite size_finite, ddiv_8 by lra.
  cbn [Math_floor].
  set (v := push_zeros _ empty_array).
  unfold ddiv. rewrite Rzero_false by lra. cbn [dmul Math_floor].
  destruct (clamp_nHashFuncs_finite (Zfloor (IZR (alen v * 8) / n * LN2)))
    as (h & -> & Hh).
  unfold MIN_HASH_FUNCS in Hh. unfold new_Filter.
  cbn [arg_vData arg_nHashFuncs arg_nTweak arg_nFlags truthy].
  destruct (Z.eqb_spec h 0); [lia|]. cbn [negb].
  eexists. split; [reflexivity|]. split; reflexivity.
Qed.

(** For a positive element count and a rate between 0 and 1, [create]
    throws nothing: it returns a filter, with the tweak and the flags it
    was given, 0 standing for a missing one. *)
Theorem create_succeeds (n p : R) (tweak flags : jsval) :
  0 < n -> 0 < p < 1 ->
  exists this,
    create (Fin n) (Fin p) tweak flags = Ok this
    /\ nTweak this = number (js_or_else tweak (Num 0))
    /\ nFlags this = number (js_or_else flags (Num BLOOM_UPDATE_NONE)).
Proof. apply create_positive. Qed.

Lemma create_succeeds_witness :
  0 < 3 /\ 0 < / 100 < 1
  /\ exists this,
       create (Fin 3) (Fin (/ 100)) Undefined (Num BLOOM_UPDATE_ALL) = Ok this
       /\ nTweak this = 0%Z /\ nFlags this = 1%Z.
Proof.
  assert (0 < 3) as Hn by lra. assert (0 < / 100 < 1) as Hp by lra.
  split; [exact Hn|]. split; [exact Hp|].
  apply (create_succeeds 3 (/ 100) Undefined (Num BLOOM_UPDATE_ALL) Hn Hp).
Defined.

End CreateSucceeds.

Lemma create_returns_bounds_witness :
  exists this,
    create (Fin 3) (Fin (/ 100)) Undefined Undefined = Ok this
    /\ MIN_HASH_FUNCS <= nHashFuncs this <= MAX_HASH_FUNCS
    /\ 0 <= alen (vData this) <= MAX_BLOOM_FILTER_SIZE * 8.
Proof.
  destruct (create_positive 3 (/ 100) Undefined Undefined) as (this & H & _);
    [lra | lra |].
  exists this. split; [exact H|].
  apply (create_returns_bounds _ _ _ _ _ H).
Defined.

Lemma create_contains_nothing_witness :
  exists this,
    create (Fin 3) (Fin (/ 100)) Undefined Undefined = Ok this
    /\ contains this test_a = false.
Proof.
  destruct (create_positive 3 (/ 100) Undefined Undefined) as (this & H & _);
    [lra | lra |].
  exists this. split; [exact H|].
  apply (create_contains_nothing _ _ _ _ _ test_a H).
Defined.

(** ** The matcher and the filter it leaves *)

Lemma extends_refl this : extends this this.
Proof. unfold extends. auto. Qed.

Lemma extends_trans this that other :
  extends this that -> extends that other -> extends this other.
Proof.
  intros (Ha & Hn & Ht & Hf & Hb) (Ha' & Hn' & Ht' & Hf' & Hb').
  unfold extends. repeat split; try congruence. auto.
Qed.

Lemma extends_insert this data :
  0 < alen (vData this) -> extends this (insert this data).
Proof.
  intros Hlen. destruct (insert_fields data this Hlen) as (Ha & Hn & Ht & Hf).
  unfold extends. repeat split; try assumption.
  intros index. apply insert_keeps_bit, Hlen.
Qed.

Lemma extends_contains this that x :
  extends this that -> contains this x = true -> contains that x = true.
Proof.
  intros (Ha & Hn & Ht & _ & Hb). rewrite !contains_indices.
  rewrite (indices_ext this that x), Ha by assumption.
  intros H. apply andb_true_iff in H as [H0 Hall].
  apply andb_true_iff. split; [exact H0|].
  rewrite forallb_forall in *. auto.
Qed.

(** What one output does to the state of the loop. *)
Lemma output_step_cases hash found this output :
  output_step hash (found, this) output = (found, this)
  \/ exists scriptPublicKey,
       isPublicKeyHashOut (output_script output) = true
       /\ getPublicKeyHash (output_script output) = Some scriptPublicKey
       /\ contains this scriptPublicKey = true
       /\ (output_step hash (found, this) output = (true, this)
           \/ output_step hash (found, this) output
              = (true, insert this hash)).
Proof.
  unfold output_step.
  set (flags := js_and (Num (nFlags this)) (Num BLOOM_UPDATE_MASK)).
  destruct (isPublicKeyHashOut (output_script output)); [|auto].
  destruct (getPublicKeyHash (output_script output)) as [k|]; [|auto].
  destruct (contains this k) eqn:Hk; [|auto].
  right. exists k.
  split; [reflexivity|]. split; [reflexivity|]. split; [exact Hk|].
  destruct (flags =? BLOOM_UPDATE_ALL); [auto|].
  destruct (flags =? BLOOM_UPDATE_P2PUBKEY_ONLY); [|auto].
  destruct (isPublicKeyOut (output_script output)
            || isMultiSigOut (output_script output)); auto.
Qed.

Lemma fold_output_step hash outs : forall found this,
  0 < alen (vData this) ->
  let st := fold_left (output_step hash) outs (found, this) in
  extends this (snd st)
  /\ (found = true -> fst st = true)
  /\ (fst st = false -> snd st = this).
Proof.
  induction outs as [|o outs IH]; intros found this Hlen; cbn [fold_left].
  - cbv zeta. cbn [fst snd]. split; [apply extends_refl|]. auto.
  - destruct (output_step_cases hash found this o)
      as [->|(k & _ & _ & _ & [-> | ->])].
    + apply IH, Hlen.
    + destruct (IH true this Hlen) as (He & Hf & Hu).
      split; [exact He|]. split; [auto|]. exact Hu.
    + pose proof (extends_insert this hash Hlen) as Hins.
      destruct (IH true (insert this hash)) as (He & Hf & Hu).
      { destruct Hins as (Ha & _). lia. }
      split; [eapply extends_trans; eassumption|]. split; [auto|].
      intros Hfalse. rewrite Hf in Hfalse by reflexivity. discriminate.
Qed.

Lemma fold_output_step_empty_or_not hash outs found this :
  fst (fold_left (output_step hash) outs (found, this)) = false ->
  snd (fold_left (output_step hash) outs (found, this)) = this.
Proof.
  revert found this. induction outs as [|o outs IH]; intros found this;
    cbn [fold_left]; [reflexivity|].
  destruct (output_step_cases hash found this o)
    as [->|(k & _ & _ & _ & [-> | ->])].
  - apply IH.
  - apply IH.
  - intros Hfalse. exfalso. revert Hfalse. clear.
    generalize (insert this hash). induction outs as [|o outs IH];
      intros that; cbn [fold_left]; [discriminate|].
    destruct (output_step_cases hash true that o)
      as [->|(k & _ & _ & _ & [-> | ->])]; apply IH.
Qed.

(** The result and the state, with the pair of the loop taken apart. *)
Lemma isRelevantAndUpdate_eq this transaction :
  alen (vData this) <> 0 ->
  let hash := readReverse (getHash transaction) in
  let st := fold_left (output_step hash) (outputs transaction)
              (contains this hash || contains this (getHash transaction), this) in
  isRelevantAndUpdate this (Some transaction)
  = (if fst st then Ok true else inputs_loop (snd st) 0 (inputs transaction),
     snd st).
Proof.
  intros Hlen. cbv zeta. unfold isRelevantAndUpdate.
  destruct (Z.eqb_spec (alen (vData this)) 0) as [|_]; [contradiction|].
  destruct (fold_left _ _ _) as [found that]. cbn [fst snd].
  destruct found; reflexivity.
Qed.



(** On a non-empty filter the call keeps the length of the bit array,
    the hash-function count, the tweak and the flags, and whatever the
    filter contained it still contains. *)
Theorem isRelevantAndUpdate_keeps_members (this : Filter)
    (transaction : option Transaction) (x : Buffer) :
  0 < alen (vData this) ->
  let that := snd (isRelevantAndUpdate this transaction) in
  alen (vData that) = alen (vData this)
  /\ nHashFuncs that = nHashFuncs this
  /\ nTweak that = nTweak this
  /\ nFlags that = nFlags this
  /\ (contains this x = true -> contains that x = true).
Proof.
  intros Hlen that.
  assert (extends this that) as He.
  { unfold that. destruct transaction as [transaction|];
      [|apply extends_refl].
    rewrite isRelevantAndUpdate_eq by lia. cbv zeta. cbn [snd].
    apply (fold_output_step _ _ _ this Hlen). }
  pose proof (extends_contains this that x He) as Hc.
  destruct He as (Ha & Hn & Ht & Hf & _). auto.
Qed.

Lemma isRelevantAndUpdate_keeps_members_witness :
  let this := insert relevance_filter
                     (ParseHex "04943fdd508053c75000106d3bc6e2754dbcff19") in
  let that := snd (isRelevantAndUpdate this (Some test_tx)) in
  0 < alen (vData this)
  /\ that <> this
  /\ alen (vData that) = alen (vData this)
  /\ nHashFuncs that = nHashFuncs this
  /\ nTweak that = nTweak this
  /\ nFlags that = nFlags this
  /\ (contains this (ParseHex "04943fdd508053c75000106d3bc6e2754dbcff19") = true
      -> contains that (ParseHex "04943fdd508053c75000106d3bc6e2754dbcff19")
         = true).
Proof.
  cbv zeta.
  assert (0 < alen (vData (insert relevance_filter
            (ParseHex "04943fdd508053c75000106d3bc6e2754dbcff19")))) as Hlen
    by (vm_compute; reflexivity).
  split; [exact Hlen|]. split; [vm_compute; discriminate|].
  apply (isRelevantAndUpdate_keeps_members _ (Some test_tx) _ Hlen).
Defined.

(** ** When the matcher updates the filter, and what it then finds *)

Lemma output_step_no_update hash found this output :
  js_and (Num (nFlags this)) (Num BLOOM_UPDATE_MASK) <> BLOOM_UPDATE_ALL ->
  js_and (Num (nFlags this)) (Num BLOOM_UPDATE_MASK)
  <> BLOOM_UPDATE_P2PUBKEY_ONLY ->
  snd (output_step hash (found, this) output) = this.
Proof.
  intros Hall Hp2. unfold output_step.
  destruct (Z.eqb_spec (js_and (Num (nFlags this)) (Num BLOOM_UPDATE_MASK))
                       BLOOM_UPDATE_ALL); [contradiction|].
  destruct (Z.eqb_spec (js_and (Num (nFlags this)) (Num BLOOM_UPDATE_MASK))
                       BLOOM_UPDATE_P2PUBKEY_ONLY); [contradiction|].
  destruct (isPublicKeyHashOut _); [|reflexivity].
  destruct (getPublicKeyHash _); [|reflexivity].
  destruct (contains _ _); reflexivity.
Qed.

Lemma fold_output_step_no_update hash outs this : forall found,
  js_and (Num (nFlags this)) (Num BLOOM_UPDATE_MASK) <> BLOOM_UPDATE_ALL ->
  js_and (Num (nFlags this)) (Num BLOOM_UPDATE_MASK)
  <> BLOOM_UPDATE_P2PUBKEY_ONLY ->
  snd (fold_left (output_step hash) outs (found, this)) = this.
Proof.
  induction outs as [|o outs IH]; intros found Hall Hp2; cbn [fold_left];
    [reflexivity|].
  pose proof (output_step_no_update hash found this o Hall Hp2) as H.
  destruct (output_step hash (found, this) o) as [found' that].
  cbn [snd] in H. subst that. apply IH; assumption.
Qed.

(** With update flags other than [BLOOM_UPDATE_ALL] and
    [BLOOM_UPDATE_P2PUBKEY_ONLY] ([BLOOM_UPDATE_NONE] is one) the call
    leaves the filter as it was, whatever the transaction and the
    result. *)
Theorem isRelevantAndUpdate_no_update (this : Filter)
    (transaction : option Transaction) :
  js_and (Num (nFlags this)) (Num BLOOM_UPDATE_MASK) <> BLOOM_UPDATE_ALL ->
  js_and (Num (nFlags this)) (Num BLOOM_UPDATE_MASK)
  <> BLOOM_UPDATE_P2PUBKEY_ONLY ->
  snd (isRelevantAndUpdate this transaction) = this.
Proof.
  intros Hall Hp2. destruct transaction as [transaction|]; [|reflexivity].
  destruct (Z.eq_dec (alen (vData this)) 0) as [Hz|Hnz].
  - unfold isRelevantAndUpdate. rewrite Hz. reflexivity.
  - rewrite isRelevantAndUpdate_eq by exact Hnz. cbv zeta. cbn [snd].
    apply fold_output_step_no_update; assumption.
Qed.

Lemma isRelevantAndUpdate_no_update_witness :
  let this :=
    insert {| vData := array_of_list (repeat 0 35); nHashFuncs := 19;
              nTweak := 0; nFlags := BLOOM_UPDATE_NONE |}
           (ParseHex "04943fdd508053c75000106d3bc6e2754dbcff19") in
  isRelevantAndUpdate this (Some test_tx) = (Ok true, this).
Proof.
  cbv zeta.
  match goal with |- isRelevantAndUpdate ?f ?t = _ =>
    assert (fst (isRelevantAndUpdate f t) = Ok true) as Hfst
      by (vm_compute; reflexivity);
    assert (snd (isRelevantAndUpdate f t) = f) as Hsnd
      by (apply (isRelevantAndUpdate_no_update f t); vm_compute; discriminate);
    destruct (isRelevantAndUpdate f t); cbn [fst snd] in *; congruence
  end.
Defined.

Lemma isRelevantAndUpdate_found this transaction :
  0 < alen (vData this) ->
  fst (fold_left (output_step (readReverse (getHash transaction)))
         (outputs transaction)
         (contains this (readReverse (getHash transaction))
          || contains this (getHash transaction), this)) = true ->
  fst (isRelevantAndUpdate this (Some transaction)) = Ok true.
Proof.
  intros Hlen Hfound. rewrite isRelevantAndUpdate_eq by lia.
  cbv zeta. cbn [fst]. rewrite Hfound. reflexivity.
Qed.



Lemma output_step_match hash found this output k :
  isPublicKeyHashOut (output_script output) = true ->
  getPublicKeyHash (output_script output) = Some k ->
  contains this k = true ->
  fst (output_step hash (found, this) output) = true
  /\ (js_and (Num (nFlags this)) (Num BLOOM_UPDATE_MASK) = BLOOM_UPDATE_ALL ->
      snd (output_step hash (found, this) output) = insert this hash).
Proof.
  intros Hp Hk Hc. unfold output_step. rewrite Hp, Hk, Hc. split.
  - destruct (_ =? BLOOM_UPDATE_ALL)%Z; [reflexivity|].
    destruct (_ =? BLOOM_UPDATE_P2PUBKEY_ONLY)%Z; [|reflexivity].
    destruct (_ || _); reflexivity.
  - intros ->. reflexivity.
Qed.

Lemma fold_output_step_match hash output k outs : forall found this,
  0 < alen (vData this) ->
  In output outs ->
  isPublicKeyHashOut (output_script output) = true ->
  getPublicKeyHash (output_script output) = Some k ->
  contains this k = true ->
  let st := fold_left (output_step hash) outs (found, this) in
  fst st = true
  /\ (js_and (Num (nFlags this)) (Num BLOOM_UPDATE_MASK) = BLOOM_UPDATE_ALL ->
      contains (snd st) hash = true).
Proof.
  induction outs as [|o outs IH]; intros found this Hlen Hin Hp Hk Hc;
    [destruct Hin|].
  cbn [fold_left]. cbv zeta.
  destruct (fold_output_step hash [o] found this Hlen) as (He & _).
  cbn [fold_left] in He.
  destruct Hin as [->|Hin].
  - destruct (output_step_match hash found this output k Hp Hk Hc)
      as [Hfst Hsnd].
    destruct (output_step hash (found, this) output) as [found' that].
    cbn [fst snd] in *. subst found'.
    assert (0 < alen (vData that)) as Hlen' by (destruct He as (-> & _); lia).
    destruct (fold_output_step hash outs true that Hlen') as (He' & Hf & _).
    split; [auto|]. intros Hall.
    apply (extends_contains that); [exact He'|].
    rewrite (Hsnd Hall).
    apply all_written_contains; [|apply insert_all_written, Hlen].
    destruct (insert_fields hash this Hlen) as (-> & _). exact Hlen.
  - destruct (output_step hash (found, this) o) as [found' that].
    cbn [snd] in He.
    assert (0 < alen (vData that)) as Hlen' by (destruct He as (-> & _); lia).
    destruct (IH found' that Hlen' Hin Hp Hk
                (extends_contains this that k He Hc)) as [Hfst Hupd].
    split; [exact Hfst|]. intros Hall. apply Hupd.
    destruct He as (_ & _ & _ & -> & _). exact Hall.
Qed.

Lemma output_match this transaction output k :
  0 < alen (vData this) ->
  In output (outputs transaction) ->
  isPublicKeyHashOut (output_script output) = true ->
  getPublicKeyHash (output_script output) = Some k ->
  contains this k = true ->
  fst (isRelevantAndUpdate this (Some transaction)) = Ok true
  /\ (js_and (Num (nFlags this)) (Num BLOOM_UPDATE_MASK) = BLOOM_UPDATE_ALL ->
      contains (snd (isRelevantAndUpdate this (Some transaction)))
               (readReverse (getHash transaction)) = true).
Proof.
  intros Hlen Hin Hp Hk Hc.
  destruct (fold_output_step_match (readReverse (getHash transaction))
              output k (outputs transaction)
              (contains this (readReverse (getHash transaction))
               || contains this (getHash transaction)) this
              Hlen Hin Hp Hk Hc) as [Hfst Hupd].
  split; [apply isRelevantAndUpdate_found; assumption|].
  intros Hall. rewrite isRelevantAndUpdate_eq by lia. cbv zeta. cbn [snd].
  apply Hupd, Hall.
Qed.



Lemma inputs_loop_hit this input inputs : forall i,
  In input inputs ->
  contains this (prevTxId input)
  || contains this (readReverse (prevTxId input)) = true ->
  inputs_loop this i inputs <> Ok false.
Proof.
  induction inputs as [|head rest IH]; intros i Hin Hc; [destruct Hin|].
  cbn [inputs_loop]. cbv zeta.
  destruct (contains this (prevTxId head)
            || contains this (readReverse (prevTxId head))) eqn:Hhead;
    [discriminate|].
  destruct Hin as [->|Hin]; [congruence|].
  destruct (chunks_loop _ _ _ _) as [[|]|e]; cbn;
    [discriminate | apply IH; assumption | discriminate].
Qed.

Lemma spent_outpoint this transaction input :
  0 < alen (vData this) ->
  In input (inputs transaction) ->
  contains this (prevTxId input) = true
  \/ contains this (readReverse (prevTxId input)) = true ->
  fst (isRelevantAndUpdate this (Some transaction)) <> Ok false
  /\ (head (inputs transaction) = Some input ->
      fst (isRelevantAndUpdate this (Some transaction)) = Ok true).
Proof.
  intros Hlen Hin Hc.
  assert (contains this (prevTxId input)
          || contains this (readReverse (prevTxId input)) = true) as Hor
    by (destruct Hc as [-> | ->]; auto using orb_true_r).
  rewrite isRelevantAndUpdate_eq by lia. cbv zeta. cbn [fst].
  destruct (fst (fold_left _ _ _)) eqn:Hfound.
  - split; [discriminate | reflexivity].
  - rewrite (fold_output_step_empty_or_not _ _ _ _ Hfound). split.
    + apply inputs_loop_hit with input; assumption.
    + destruct (inputs transaction) as [|first rest]; [discriminate|].
      intros [= ->]. cbn [inputs_loop]. cbv zeta. rewrite Hor. reflexivity.
Qed.



(** The filter maintains itself: after a match on an output under
    [BLOOM_UPDATE_ALL], a transaction whose first input spends the
    matched transaction is relevant to the filter the first call left,
    with no insertion by the caller. *)
Theorem spend_found_after_update (this : Filter)
    (transaction spending : Transaction) (output : Output) (k : Buffer)
    (input : Input) :
  0 < alen (vData this) ->
  js_and (Num (nFlags this)) (Num BLOOM_UPDATE_MASK) = BLOOM_UPDATE_ALL ->
  In output (outputs transaction) ->
  isPublicKeyHashOut (output_script output) = true ->
  getPublicKeyHash (output_script output) = Some k ->
  contains this k = true ->
  head (inputs spending) = Some input ->
  prevTxId input = readReverse (getHash transaction) ->
  fst (isRelevantAndUpdate
         (snd (isRelevantAndUpdate this (Some transaction)))
         (Some spending)) = Ok true.
Proof.
  intros Hlen Hall Hin Hp Hk Hc Hhead Hprev.
  destruct (output_match this transaction output k Hlen Hin Hp Hk Hc)
    as [_ Hupd].
  set (that := snd (isRelevantAndUpdate this (Some transaction))) in *.
  assert (0 < alen (vData that)) as Hlen'.
  { unfold that. rewrite isRelevantAndUpdate_eq by lia. cbv zeta. cbn [snd].
    destruct (fold_output_step (readReverse (getHash transaction))
                (outputs transaction)
                (contains this (readReverse (getHash transaction))
                 || contains this (getHash transaction)) this Hlen)
      as ((-> & _) & _). exact Hlen. }
  apply (spent_outpoint that spending input Hlen').
  - destruct (inputs spending) as [|first rest]; [discriminate|].
    injection Hhead as ->. left. reflexivity.
  - left. rewrite Hprev. apply Hupd, Hall.
  - exact Hhead.
Qed.

Lemma spend_found_after_update_witness :
  let k := ParseHex "04943fdd508053c75000106d3bc6e2754dbcff19" in
  let this := insert relevance_filter k in
  fst (isRelevantAndUpdate this (Some test_spending_tx)) = Ok false
  /\ fst (isRelevantAndUpdate (snd (isRelevantAndUpdate this (Some test_tx)))
                              (Some test_spending_tx)) = Ok true.
Proof.
  cbv zeta.
  set (k := ParseHex "04943fdd508053c75000106d3bc6e2754dbcff19").
  split; [vm_compute; reflexivity|].
  apply (spend_found_after_update (insert relevance_filter k) test_tx
           test_spending_tx (mkOutput (p2pkh_script k)) k
           {| prevTxId := readReverse (getHash test_tx);
              input_script := unlocking_script [test_signature; test_pubkey] |}).
  - vm_compute. reflexivity.
  - vm_compute. reflexivity.
  - left. reflexivity.
  - reflexivity.
  - reflexivity.
  - vm_compute. reflexivity.
  - reflexivity.
  - reflexivity.
Defined.

(** ** The index [hash] returns *)

(** On an empty bit array [hash] returns [NaN]; on a non-empty one it
    returns the index of a bit of the array, from 0 to eight times the
    length less one. *)
Theorem hash_in_bit_array (this : Filter) (nHashNum : Z) (data : Buffer) :
  (alen (vData this) = 0 -> hash this nHashNum data = NaN)
  /\ (0 < alen (vData this) ->
      exists z, hash this nHashNum data = Num z
                /\ 0 <= z < alen (vData this) * 8).
Proof.
  split.
  - apply hash_empty.
  - intros Hlen.
    destruct (hash_nonempty data this nHashNum Hlen) as (z & Hz & Hr & _).
    eauto.
Qed.
